(** * rasa_core.utils: a shallow embedding of the utility helpers

    The development follows [rasa_core/utils.py].  Python dictionaries are
    finite maps ([gmap]), Python sets are finite sets ([gset]), Python
    integers are [Z], Python lists are [list]s held in an explicit store
    where the source mutates them in place, and every function that can
    raise returns a [result]. *)

From Stdlib Require Import ZArith Lia Ascii.
From stdpp Require Import base option list gmap strings pretty.

Local Open Scope Z_scope.

(** ** Exceptions and results *)

(** The exceptions the modelled functions raise or let through. *)
Inductive exn : Type :=
  | Exception (msg : string)      (* [raise Exception(msg)] *)
  | ValueError (msg : string)     (* numpy: negative dimensions *)
  | IndexError (msg : string)     (* numpy: index out of bounds *)
  | OSError (errno : Z)           (* [OSError] and its subclasses *)
  | OtherError (name : string).   (* any exception that is not an [OSError] *)

Inductive result (A : Type) : Type :=
  | Ok (a : A)
  | Raise (e : exn).
Arguments Ok {A} a.
Arguments Raise {A} e.

Definition bind {A B} (r : result A) (k : A → result B) : result B :=
  match r with
  | Ok a => k a
  | Raise e => Raise e
  end.

Notation "x ← r ;;; k" := (bind r (λ x, k))
  (at level 20, r at level 100, k at level 200, right associativity,
   format "x  ←  r  ;;;  '/' k").

(** * Part I: the embedding *)

(** References to the mutable objects (lists, arrays) of a store. *)
Definition loc : Type := positive.

(** Cut [d] into [n] consecutive pieces of [k] items. *)
Fixpoint chunks {A} (n k : nat) (d : list A) : list (list A) :=
  match n with
  | O => []
  | S n' => take k d :: chunks n' k (drop k d)
  end.

(** ** [extract_args] *)

Module ExtractArgs.
Section extract_args.
(** The values of the keyword arguments are arbitrary Python objects. *)
Context {V : Type}.

(** One iteration of the loop body: [k] goes to [extracted] when it is in
    [keys_to_extract] and to [remaining] otherwise.  The accumulator is the
    pair [(extracted, remaining)]. *)
Definition extract_step (keys_to_extract : gset string)
    (acc : gmap string V * gmap string V) (kv : string * V)
    : gmap string V * gmap string V :=
  let '(extracted, remaining) := acc in
  let '(k, v) := kv in
  if decide (k ∈ keys_to_extract)
  then (<[k := v]> extracted, remaining)
  else (extracted, <[k := v]> remaining).

(** [for k, v in kwargs.items(): ...] starting from two empty dictionaries;
    the function returns [(extracted, remaining)]. *)
Definition extract_args (kwargs : gmap string V)
    (keys_to_extract : gset string) : gmap string V * gmap string V :=
  foldl (extract_step keys_to_extract) (∅, ∅) (map_to_list kwargs).

End extract_args.
End ExtractArgs.

(** ** [one_hot] *)

Module OneHot.

(** A one-dimensional numpy array of numbers.  [dtype = None] is numpy's
    default ([float64]); the entries written by [one_hot] are 0 and 1, which
    every numeric dtype represents exactly, so they are kept as integers. *)
Record vector : Type := Vector {
  vec_dtype : option string;
  vec_data : list Z
}.

(** [numpy.zeros(length, dtype)] for an integer [length]. *)
Definition numpy_zeros (length : Z) (dtype : option string) : result vector :=
  if decide (length < 0)
  then Raise (ValueError "negative dimensions are not allowed")
  else Ok (Vector dtype (replicate (Z.to_nat length) 0)).

(** [r[idx] = v] on a one-dimensional array: a negative index counts from
    the end, an index outside [-n, n) is an [IndexError]. *)
Definition setitem (r : vector) (idx : Z) (v : Z) : result vector :=
  let n := Z.of_nat (length (vec_data r)) in
  if decide (- n ≤ idx < n)
  then
    let i := if decide (idx < 0) then idx + n else idx in
    Ok (Vector (vec_dtype r) (<[Z.to_nat i := v]> (vec_data r)))
  else Raise (IndexError "index is out of bounds for axis 0").

Definition out_of_range_msg (hot_idx length : Z) : string :=
  "Can't create one hot. Index '" +:+ pretty hot_idx +:+
  "' is out of range (length '" +:+ pretty length +:+ "')".

Definition one_hot (hot_idx length : Z) (dtype : option string)
    : result vector :=
  if decide (hot_idx >= length)
  then Raise (Exception (out_of_range_msg hot_idx length))
  else
    r ← numpy_zeros length dtype ;;;
    r ← setitem r hot_idx 1 ;;;
    Ok r.

End OneHot.

(** ** [subsample_array] *)

Module Subsample.

Section subsample_array.
(** Lists are mutable objects: the caller and the function share them
    through a reference into a store.  The section is parameterised by the
    elements of the list and by the state of a [random.Random] generator
    with its primitive [randbelow g n], which draws an index below [n]. *)
Context {A G : Type}.
Context (randbelow : G → nat → nat * G).

(** [x[i], x[j] = x[j], x[i]]: the right-hand side is read first. *)
Definition swap (x : list A) (i j : nat) : result (list A) :=
  match x !! j, x !! i with
  | Some xj, Some xi => Ok (<[j := xi]> (<[i := xj]> x))
  | _, _ => Raise (IndexError "list index out of range")
  end.

(** [Random.shuffle]:
    [for i in reversed(range(1, len(x))): j = randbelow(i + 1); swap].
    The swap can only fail on a draw that is out of range. *)
Fixpoint shuffle_from (i : nat) (g : G) (x : list A) : result (G * list A) :=
  match i with
  | O => Ok (g, x)
  | S i' =>
      let '(j, g') := randbelow g (i + 1)%nat in
      x' ← swap x i j ;;;
      shuffle_from i' g' x'
  end.

Definition shuffle (g : G) (x : list A) : result (G * list A) :=
  shuffle_from (length x - 1)%nat g x.

(** [x[:stop]] on a list. *)
Definition slice_to (x : list A) (stop : Z) : list A :=
  let n := Z.of_nat (length x) in
  let stop' := if decide (stop < 0) then Z.max 0 (stop + n) else Z.min stop n in
  take (Z.to_nat stop') x.

(** The store of list objects, and the hidden generator of the [random]
    module that [random.shuffle] uses. *)
Record world : Type := World {
  lists : gmap loc (list A);
  module_rng : G
}.

Definition load_list (w : world) (l : loc) : result (list A) :=
  match lists w !! l with
  | Some x => Ok x
  | None => Raise (OtherError "no such object")
  end.

(** [arr = arr[:]] binds the local name to a fresh copy. *)
Definition copy_list (h : gmap loc (list A)) (x : list A)
    : gmap loc (list A) * loc :=
  let l := fresh (dom h) in (<[l := x]> h, l).

(** The function returns the new world, the state of the caller's generator
    (when one was passed) and the returned list. *)
Definition subsample_array (w : world) (arr : loc) (max_values : Z)
    (can_modify_incoming_array : bool) (rand : option G)
    : result (world * option G * list A) :=
  x ← load_list w arr ;;;
  let '(h, arr) :=
    if negb can_modify_incoming_array
    then copy_list (lists w) x
    else (lists w, arr) in
  match rand with
  | Some g =>
      r ← shuffle g x ;;;
      let '(g', x') := r in
      Ok (World (<[arr := x']> h) (module_rng w), Some g', slice_to x' max_values)
  | None =>
      r ← shuffle (module_rng w) x ;;;
      let '(g', x') := r in
      Ok (World (<[arr := x']> h) g', None, slice_to x' max_values)
  end.

End subsample_array.

(** A small linear congruential generator, used to run the function. *)
Definition lcg_randbelow (g : Z) (n : nat) : nat * Z :=
  (Z.to_nat ((g / 65536) mod Z.of_nat n),
   (g * 1103515245 + 12345) mod 2147483648).

(** A store with one list of ten items, and a seeded module generator. *)
Definition ten_items : list Z := [10; 11; 12; 13; 14; 15; 16; 17; 18; 19].

Definition one_list : world (A := Z) (G := Z) :=
  World {[ 1%positive := ten_items ]} 20181103.

End Subsample.

(** ** [create_dir_for_file] *)

Module Dirs.
Section create_dir_for_file.
(** The file system is the environment of the function: its state, and the
    two library calls the function makes. *)
Context {fs : Type}.
Context (dirname : string → string).
Context (makedirs : fs → string → fs * result unit).

Definition EEXIST : Z := 17.

Definition create_dir_for_file (σ : fs) (file_path : string)
    : fs * result unit :=
  let '(σ', r) := makedirs σ (dirname file_path) in
  match r with
  | Raise (OSError errno) =>
      if decide (errno ≠ EEXIST) then (σ', Raise (OSError errno))
      else (σ', Ok ())
  | _ => (σ', r)
  end.

End create_dir_for_file.
End Dirs.

(** A small file system to run the function on: the state is the set of
    the directories that exist, paths are POSIX paths. *)
Module Posix.

Definition slash : ascii := "/"%char.

(** [s.rstrip(c)] and [s[:s.rfind(c) + 1]] on a list of characters. *)
Definition rstrip (c : ascii) (s : list ascii) : list ascii :=
  foldr (λ x acc, if decide (x = c ∧ acc = []) then [] else x :: acc) [] s.

Definition upto_last (c : ascii) (s : list ascii) : list ascii :=
  foldr (λ x acc, if decide (x ≠ c ∧ acc = []) then [] else x :: acc) [] s.

(** [posixpath.dirname] *)
Definition dirname (p : string) : string :=
  let head := upto_last slash (String.list_ascii_of_string p) in
  String.string_of_list_ascii
    (if decide (head ≠ [] ∧ head ≠ replicate (length head) slash)
     then rstrip slash head else head).

Definition ENOENT : Z := 2.

Fixpoint ancestors (fuel : nat) (p : string) : list string :=
  match fuel with
  | O => []
  | S fuel' =>
      if decide (p = "" ∨ p = "/") then []
      else p :: ancestors fuel' (dirname p)
  end.

(** [os.makedirs]: the empty path does not exist, an existing directory is
    reported, and otherwise the directory is made with its ancestors. *)
Definition makedirs (σ : gset string) (name : string)
    : gset string * result unit :=
  if decide (name = "") then (σ, Raise (OSError ENOENT))
  else if decide (name ∈ σ) then (σ, Raise (OSError Dirs.EEXIST))
  else (list_to_set (ancestors (String.length name) name) ∪ σ, Ok ()).

End Posix.

(** ** [hashlib.sha1], [hexdigest] and [int(_, 16)] *)

Module Hashlib.

(** Bytes are integers in [0, 256); words are integers in [0, 2^32). *)
Definition is_byte (b : Z) : Prop := 0 ≤ b < 256.

Definition w32 (x : Z) : Z := x mod 2 ^ 32.

Definition rotl (n x : Z) : Z :=
  w32 (Z.lor (Z.shiftl x n) (Z.shiftr x (32 - n))).

(** The [n] low bytes of [x], most significant first. *)
Definition be_bytes (n : nat) (x : Z) : list Z :=
  (λ i : nat, Z.land (Z.shiftr x (8 * Z.of_nat i)) 255) <$> reverse (seq 0 n).

Definition be_int (bs : list Z) : Z :=
  foldl (λ acc b, acc * 256 + b) 0 bs.

(** Message padding: a 1 bit, zeros up to 56 modulo 64, then the length of
    the message in bits on 8 bytes. *)
Definition pad (msg : list Z) : list Z :=
  let l := Z.of_nat (length msg) in
  msg ++ [128] ++ replicate (Z.to_nat ((55 - l) mod 64)) 0 ++ be_bytes 8 (8 * l).

(** The message schedule, most recent word first while it is extended. *)
Fixpoint extend (n : nat) (rev_w : list Z) : list Z :=
  match n with
  | O => rev_w
  | S n' =>
      let x := Z.lxor (Z.lxor (nth 2 rev_w 0) (nth 7 rev_w 0))
                      (Z.lxor (nth 13 rev_w 0) (nth 15 rev_w 0)) in
      extend n' (rotl 1 x :: rev_w)
  end.

Definition schedule (block : list Z) : list Z :=
  reverse (extend 64 (reverse (be_int <$> chunks 16 4 block))).

Definition regs : Type := Z * Z * Z * Z * Z.

Definition round (s : regs) (tw : nat * Z) : regs :=
  let '(a, b, c, d, e) := s in
  let '(t, w) := tw in
  let '(f, k) :=
    if decide (t < 20)%nat
    then (Z.lor (Z.land b c) (Z.land (Z.lxor b 4294967295) d), 1518500249)
    else if decide (t < 40)%nat
    then (Z.lxor (Z.lxor b c) d, 1859775393)
    else if decide (t < 60)%nat
    then (Z.lor (Z.lor (Z.land b c) (Z.land b d)) (Z.land c d), 2400959708)
    else (Z.lxor (Z.lxor b c) d, 3395469782) in
  (w32 (rotl 5 a + f + e + k + w), a, rotl 30 b, c, d).

Definition process_block (h : regs) (block : list Z) : regs :=
  let '(h0, h1, h2, h3, h4) := h in
  let '(a, b, c, d, e) := foldl round h (zip (seq 0 80) (schedule block)) in
  (w32 (h0 + a), w32 (h1 + b), w32 (h2 + c), w32 (h3 + d), w32 (h4 + e)).

Definition initial_regs : regs :=
  (1732584193, 4023233417, 2562383102, 271733878, 3285377520).

(** The 20 bytes of the digest. *)
Definition sha1 (msg : list Z) : list Z :=
  let padded := pad msg in
  let '(h0, h1, h2, h3, h4) :=
    foldl process_block initial_regs
          (chunks (length padded / 64) 64 padded) in
  be_bytes 4 h0 ++ be_bytes 4 h1 ++ be_bytes 4 h2 ++ be_bytes 4 h3
    ++ be_bytes 4 h4.

Definition hex_digit (n : Z) : ascii :=
  nth (Z.to_nat n) (String.list_ascii_of_string "0123456789abcdef") "0"%char.

(** [.hexdigest()]: two lower-case hexadecimal digits per byte. *)
Fixpoint hexdigest (digest : list Z) : string :=
  match digest with
  | [] => EmptyString
  | b :: digest' =>
      String (hex_digit (b / 16)) (String (hex_digit (b mod 16))
             (hexdigest digest'))
  end.

Definition hex_value (c : ascii) : option Z :=
  let n := Z.of_N (N_of_ascii c) in
  if decide (48 ≤ n ≤ 57) then Some (n - 48)
  else if decide (97 ≤ n ≤ 102) then Some (n - 87)
  else if decide (65 ≤ n ≤ 70) then Some (n - 55)
  else None.

Fixpoint int_base16_from (acc : Z) (s : string) : result Z :=
  match s with
  | EmptyString => Ok acc
  | String c s' =>
      match hex_value c with
      | Some v => int_base16_from (acc * 16 + v) s'
      | None => Raise (ValueError "invalid literal for int() with base 16")
      end
  end.

(** [int(s, 16)] on a string of hexadecimal digits (signs, prefixes and
    blanks, which [int] also accepts, do not occur in a digest). *)
Definition int_base16 (s : string) : result Z :=
  match s with
  | EmptyString => Raise (ValueError "invalid literal for int() with base 16")
  | _ => int_base16_from 0 s
  end.

End Hashlib.

(** ** numpy arrays *)

Module Numpy.

(** The arrays of the model are the C-contiguous arrays of signed integers
    (floating point, with its NaN, is not represented).  An array has a
    dtype, a shape and its elements in row-major order. *)
Inductive dtype : Type := int8 | int16 | int32 | int64.

Definition itemsize (t : dtype) : nat :=
  match t with int8 => 1 | int16 => 2 | int32 => 4 | int64 => 8 end%nat.

Record ndarray : Type := NDArray {
  nd_dtype : dtype;
  nd_shape : list nat;
  nd_data : list Z
}.

(** The [n] low bytes of [x] in two's complement, least significant first
    (the byte order of the usual platforms). *)
Definition le_bytes (n : nat) (x : Z) : list Z :=
  (λ i : nat, Z.land (Z.shiftr x (8 * Z.of_nat i)) 255) <$> seq 0 n.

(** The buffer of the array, which is what [sha1(a.view())] reads. *)
Definition buffer (a : ndarray) : list Z :=
  nd_data a ≫= le_bytes (itemsize (nd_dtype a)).

Definition shape_size (shape : list nat) : nat := foldr Nat.mul 1%nat shape.

(** Elementwise [==] of two arrays whose shapes have the same rank, with
    numpy's broadcasting of the axes of length 1; [None] when the shapes
    cannot be broadcast together.  Signed integers of different widths are
    compared by value. *)
Fixpoint equal_aligned (s1 s2 : list nat) (d1 d2 : list Z)
    : option (list bool) :=
  match s1, s2 with
  | [], [] => Some [bool_decide (default 0 (head d1) = default 0 (head d2))]
  | n1 :: r1, n2 :: r2 =>
      if decide (n1 = n2) then
        @concat bool <$> mapM (λ c, equal_aligned r1 r2 c.1 c.2)
          (zip (chunks n1 (shape_size r1) d1) (chunks n2 (shape_size r2) d2))
      else if decide (n1 = 1%nat) then
        @concat bool <$> mapM (λ c2, equal_aligned r1 r2 d1 c2)
          (chunks n2 (shape_size r2) d2)
      else if decide (n2 = 1%nat) then
        @concat bool <$> mapM (λ c1, equal_aligned r1 r2 c1 d2)
          (chunks n1 (shape_size r1) d1)
      else None
  | _, _ => None
  end.

(** Shapes are aligned on the right: the shorter one gets leading 1s. *)
Definition align (rank : nat) (shape : list nat) : list nat :=
  replicate (rank - length shape) 1%nat ++ shape.

(** The value of [a == b]: an array of booleans, or the scalar [False] that
    numpy 1.x returns (with a warning) when the shapes do not match. *)
Inductive comparison : Type :=
  | Elementwise (bs : list bool)
  | ScalarFalse.

Definition equal (a b : ndarray) : comparison :=
  let rank := Nat.max (length (nd_shape a)) (length (nd_shape b)) in
  match equal_aligned (align rank (nd_shape a)) (align rank (nd_shape b))
                      (nd_data a) (nd_data b) with
  | Some bs => Elementwise bs
  | None => ScalarFalse
  end.

(** [numpy.all] *)
Definition all (c : comparison) : bool :=
  match c with
  | Elementwise bs => forallb id bs
  | ScalarFalse => false
  end.

End Numpy.

(** ** [HashableNDArray] *)

Module Hashable.
Import Hashlib Numpy.

(** Arrays are mutable objects in a store; a wrapper refers to its array.
    The three private attributes are set once, by [__init__]. *)
Record HashableNDArray : Type := {
  __tight : bool;
  __wrapped : loc;
  __hash : Z
}.

Definition load_array (σ : gmap loc ndarray) (l : loc) : result ndarray :=
  match σ !! l with
  | Some a => Ok a
  | None => Raise (OtherError "no such object")
  end.

(** [array(a)]: a new array object that holds a copy of [a]. *)
Definition array (σ : gmap loc ndarray) (a : ndarray)
    : gmap loc ndarray * loc :=
  let l := fresh (dom σ) in (<[l := a]> σ, l).

(** Any in-place modification of the array at [l] leaves some new contents
    [a'] there. *)
Definition mutate (l : loc) (a' : ndarray) (σ : gmap loc ndarray)
    : gmap loc ndarray :=
  <[l := a']> σ.

Definition __init__ (σ : gmap loc ndarray) (wrapped : loc) (tight : bool)
    : result (gmap loc ndarray * HashableNDArray) :=
  a ← load_array σ wrapped ;;;
  let '(σ', w) := if tight then array σ a else (σ, wrapped) in
  h ← int_base16 (hexdigest (sha1 (buffer a))) ;;;
  Ok (σ', {| __tight := tight; __wrapped := w; __hash := h |}).

Definition __eq__ (σ : gmap loc ndarray) (self other : HashableNDArray)
    : result bool :=
  a ← load_array σ (__wrapped self) ;;;
  b ← load_array σ (__wrapped other) ;;;
  Ok (all (equal a b)).

Definition __hash__ (self : HashableNDArray) : Z := __hash self.

Definition unwrap (σ : gmap loc ndarray) (self : HashableNDArray)
    : result (gmap loc ndarray * loc) :=
  if __tight self then
    a ← load_array σ (__wrapped self) ;;;
    Ok (array σ a)
  else Ok (σ, __wrapped self).

(** Stores to run the class on: two arrays with the same dtype, shape and
    elements; and two arrays with the same shape and elements whose dtypes
    differ; and an array next to the contents it is later given. *)
Definition same_arrays : gmap loc ndarray :=
  {[ 1%positive := NDArray int32 [2; 2]%nat [1; -2; 3; 4];
     2%positive := NDArray int32 [2; 2]%nat [1; -2; 3; 4] ]}.

Definition mixed_dtypes : gmap loc ndarray :=
  {[ 1%positive := NDArray int8 [1%nat] [1];
     2%positive := NDArray int16 [1%nat] [1] ]}.

Definition before_mutation : gmap loc ndarray :=
  {[ 1%positive := NDArray int8 [2%nat] [1; 2];
     2%positive := NDArray int8 [2%nat] [7; 2] ]}.

End Hashable.

(** ** [cap_length], [str_range_list], [generate_id] *)

Module Text.

(** [s[:stop]] on a string. *)
Definition str_slice_to (s : string) (stop : Z) : string :=
  String.string_of_list_ascii
    (Subsample.slice_to (String.list_ascii_of_string s) stop).

Definition cap_length (s : string) (char_limit : Z) (append_ellipsis : bool)
    : string :=
  if decide (Z.of_nat (String.length s) > char_limit) then
    if append_ellipsis
    then str_slice_to s (char_limit - 3) +:+ "..."
    else str_slice_to s char_limit
  else s.

(** [range(start, end)] *)
Definition range (start stop : Z) : list Z := seqZ start (stop - start).

Definition str_range_list (start stop : Z) : list string :=
  pretty <$> range start stop.

(** [uuid.uuid4().hex] comes from the environment: 32 hexadecimal digits.
    [if max_chars:] is false for [None] and for 0. *)
Definition generate_id (uuid4_hex : string) (prefix : string)
    (max_chars : option Z) : string :=
  let gid :=
    match max_chars with
    | Some n => if decide (n ≠ 0) then str_slice_to uuid4_hex n else uuid4_hex
    | None => uuid4_hex
    end in
  prefix +:+ gid.

End Text.

(** ** [is_int] *)

Module IsInt.

(** A float is a dyadic number [m * 2^e], an infinity or a NaN; [int(_)] and
    the comparison of a float with an integer are exact on them. *)
Inductive pyfloat : Type :=
  | Finite (m e : Z)
  | Infinity (negative : bool)
  | NaN.

Inductive value : Type :=
  | VInt (z : Z)
  | VBool (b : bool)
  | VFloat (f : pyfloat)
  | VStr (s : string)
  | VNone.

(** The value [m * 2^e] of a finite float is an integer. *)
Definition integral (m e : Z) : Prop := 0 ≤ e ∨ (2 ^ (- e) | m).

Section is_int.
(** [int(s)] on a string parses it or raises; the parser is the
    environment's. *)
Context (int_of_str : string → result Z).

(** [int(_)] of a finite float truncates towards zero. *)
Definition trunc (m e : Z) : Z :=
  if decide (0 ≤ e) then m * 2 ^ e else Z.quot m (2 ^ (- e)).

Definition int (v : value) : result Z :=
  match v with
  | VInt z => Ok z
  | VBool b => Ok (if b then 1 else 0)
  | VFloat (Finite m e) => Ok (trunc m e)
  | VFloat (Infinity _) => Raise (OtherError "OverflowError")
  | VFloat NaN => Raise (ValueError "cannot convert float NaN to integer")
  | VStr s => int_of_str s
  | VNone => Raise (OtherError "TypeError")
  end.

(** [v == n] for an integer [n]. *)
Definition eq_int (v : value) (n : Z) : bool :=
  match v with
  | VInt z => bool_decide (z = n)
  | VBool b => bool_decide ((if b then 1 else 0) = n)
  | VFloat (Finite m e) =>
      if decide (0 ≤ e) then bool_decide (m * 2 ^ e = n)
      else bool_decide (m = n * 2 ^ (- e))
  | _ => false
  end.

(** [try: return value == int(value)  except Exception: return False] *)
Definition is_int (v : value) : bool :=
  match int v with
  | Ok n => eq_int v n
  | Raise _ => false
  end.

End is_int.
End IsInt.

(** ** [lazyproperty] *)

Module Lazy.
Section lazyproperty.
(** An object is the dictionary of its attributes; the wrapped function may
    change the object and may raise. *)
Context {V : Type}.

Definition attr_name (fn_name : string) : string := "_lazy_" +:+ fn_name.

Definition _lazyprop (fn_name : string)
    (fn : gmap string V → gmap string V * result V) (self : gmap string V)
    : gmap string V * result V :=
  match self !! attr_name fn_name with
  | Some v => (self, Ok v)
  | None =>
      let '(self', r) := fn self in
      match r with
      | Ok v => (<[attr_name fn_name := v]> self', Ok v)
      | Raise e => (self', Raise e)
      end
  end.

End lazyproperty.
End Lazy.

(** ** [class_from_module_path], [module_path_from_instance],
       [all_subclasses] *)

Module Classes.

Definition dot : ascii := "."%char.

(** [s.rpartition(sep)] for a separator of one character. *)
Definition rpartition (sep : ascii) (s : string) : string * string * string :=
  let cs := String.list_ascii_of_string s in
  let head := Posix.upto_last sep cs in
  match head with
  | [] => ("", "", s)
  | _ =>
      (String.string_of_list_ascii (take (length head - 1) head),
       String sep "",
       String.string_of_list_ascii (drop (length head) cs))
  end.

Section class_from_module_path.
(** Class objects, the modules that can be imported with their attributes,
    and the globals of the module of the function. *)
Context {C : Type}.

Record environment : Type := Environment {
  modules : gmap string (gmap string C);
  globals : gmap string C
}.

(** [importlib.import_module(name)] without a package. *)
Definition import_module (env : environment) (name : string)
    : result (gmap string C) :=
  match name with
  | EmptyString => Raise (ValueError "Empty module name")
  | String c _ =>
      if decide (c = dot) then Raise (OtherError "TypeError")
      else match modules env !! name with
           | Some m => Ok m
           | None => Raise (OtherError "ImportError")
           end
  end.

Definition getattr (m : gmap string C) (name : string) : result C :=
  match m !! name with
  | Some c => Ok c
  | None => Raise (OtherError "AttributeError")
  end.

Definition class_from_module_path (env : environment) (module_path : string)
    : result C :=
  if decide (dot ∈ String.list_ascii_of_string module_path) then
    let '(module_name, _, class_name) := rpartition dot module_path in
    m ← import_module env module_name ;;;
    getattr m class_name
  else
    match globals env !! module_path with
    | Some c => Ok c
    | None => Raise (OtherError "KeyError")
    end.

End class_from_module_path.

(** What [module_path_from_instance] reads of an instance:
    [inst.__module__] and [inst.__class__.__name__]. *)
Record instance : Type := Instance {
  __module__ : string;
  __name__ : string
}.

Definition module_path_from_instance (inst : instance) : string :=
  __module__ inst +:+ "." +:+ __name__ inst.

(** A class with its direct subclasses, [cls.__subclasses__()]. *)
#[warnings="-register-all"]
Inductive pyclass : Type :=
  | PyClass (name : string) (subclasses : list pyclass).

Definition __subclasses__ (cls : pyclass) : list pyclass :=
  match cls with PyClass _ subclasses => subclasses end.

Fixpoint all_subclasses (cls : pyclass) : list pyclass :=
  match cls with
  | PyClass _ subclasses =>
      subclasses ++ flat_map all_subclasses subclasses
  end.

(** [s] is a direct subclass of [c]. *)
Definition direct_subclass (c s : pyclass) : Prop := s ∈ __subclasses__ c.

End Classes.

(** ** [request_input] *)

Module Prompt.

Definition newline : string := String (ascii_of_nat 10) "".

(** [sep.join(l)] *)
Definition join (sep : string) (l : list string) : string :=
  match l with
  | [] => ""
  | x :: l' => foldl (λ acc y, acc +:+ sep +:+ y) x l'
  end.

(** The terminal: what the successive calls of [input()] give (a line, or
    an exception), and what has been written. *)
Record console : Type := Console {
  pending : list (result string);
  printed : list string
}.

(** [input(prompt) if prompt else input()] writes the prompt when it is
    not empty. *)
Definition prompt_text (prompt : option string) : list string :=
  match prompt with
  | Some p => if decide (p = "") then [] else [p]
  | None => []
  end.

(** The text [wrong_input_message] prints ([print] adds a newline). *)
Definition wrong_input_text (valid_values : list string) (max_suggested : Z)
    : string :=
  "Invalid answer, only "
  +:+ join ", " (Subsample.slice_to valid_values max_suggested)
  +:+ (if decide (Z.of_nat (length valid_values) > max_suggested)
       then ",..." else "")
  +:+ " allowed" +:+ newline +:+ newline.

(** [valid_values[:max_suggested]] is a [TypeError] on [None]. *)
Definition wrong_input_message (valid_values : option (list string))
    (max_suggested : Z) (out : list string) : result (list string) :=
  match valid_values with
  | Some vs => Ok (out ++ [wrong_input_text vs max_suggested])
  | None => Raise (OtherError "TypeError")
  end.

(** The [while True] loop: every turn reads one item of the input; at the
    end of the input [input()] raises [EOFError]. *)
Fixpoint request_loop (valid_values : option (list string))
    (prompt : option string) (max_suggested : Z)
    (pending : list (result string)) (out : list string)
    : console * result string :=
  match pending with
  | [] => (Console [] (out ++ prompt_text prompt), Raise (OtherError "EOFError"))
  | event :: rest =>
      let out := out ++ prompt_text prompt in
      let retry :=
        match wrong_input_message valid_values max_suggested out with
        | Ok out' => request_loop valid_values prompt max_suggested rest out'
        | Raise e => (Console rest out, Raise e)
        end in
      match event with
      | Ok input_value =>
          match valid_values with
          | Some vs =>
              if decide (input_value ∉ vs) then retry
              else (Console rest out, Ok input_value)
          | None => (Console rest out, Ok input_value)
          end
      | Raise (ValueError _) => retry
      | Raise e => (Console rest out, Raise e)
      end
  end.

Definition request_input (valid_values : option (list string))
    (prompt : option string) (max_suggested : Z) (c : console)
    : console * result string :=
  request_loop valid_values prompt max_suggested (pending c) (printed c).

(** The items of the input that make the loop go round once more: a line
    that is not among the valid values, or a [ValueError] of [input()]. *)
Definition rejected (valid_values : list string) (event : result string)
    : Prop :=
  match event with
  | Ok line => line ∉ valid_values
  | Raise (ValueError _) => True
  | Raise _ => False
  end.

(** What [n] rejected items leave on the terminal. *)
Definition rejections (valid_values : list string) (prompt : option string)
    (max_suggested : Z) (n : nat) : list string :=
  concat (replicate n
    (prompt_text prompt ++ [wrong_input_text valid_values max_suggested])).

End Prompt.

(** ** [is_training_data_empty] *)

Module Training.
Import Numpy.

(** [X.shape[0] == 0]; a 0-dimensional array has an empty shape tuple. *)
Definition is_training_data_empty (X : ndarray) : result bool :=
  match nd_shape X with
  | [] => Raise (IndexError "tuple index out of range")
  | n :: _ => Ok (bool_decide (n = 0%nat))
  end.

(** The data of an array fills its shape. *)
Definition well_formed (a : ndarray) : Prop :=
  length (nd_data a) = shape_size (nd_shape a).

End Training.

(** * Part II: properties *)

(** ** [extract_args] *)

Section extract_args_facts.
Import ExtractArgs.
Context {V : Type}.
Implicit Types (kwargs : gmap string V) (keys : gset string).

(** The loop invariant, for any starting pair of dictionaries: what was
    there is kept, and every item goes to the side its key selects. *)
Lemma extract_loop_lookup keys (items : list (string * V)) e0 r0 k :
  NoDup items.*1 →
  (foldl (extract_step keys) (e0, r0) items).1 !! k =
    (if decide (k ∈ keys)
     then from_option Some (e0 !! k) (list_to_map (M := gmap string V) items !! k)
     else e0 !! k)
  ∧ (foldl (extract_step keys) (e0, r0) items).2 !! k =
    (if decide (k ∈ keys)
     then r0 !! k
     else from_option Some (r0 !! k) (list_to_map (M := gmap string V) items !! k)).
Proof.
  revert e0 r0. induction items as [|[k0 v0] items IH]; intros e0 r0 Hnd.
  - simpl. rewrite lookup_empty. simpl. by destruct (decide _).
  - inversion_clear Hnd as [|?? Hnotin Hnd']. simpl in Hnotin.
    assert (k = k0 → list_to_map (M := gmap string V) items !! k = None) as Hfresh.
    { intros ->. by apply not_elem_of_list_to_map_1. }
    cbn [foldl extract_step list_to_map foldr uncurry].
    destruct (decide (k0 ∈ keys)) as [Hin0|Hin0];
      destruct (IH (if decide (k0 ∈ keys) then <[k0:=v0]> e0 else e0)
                   (if decide (k0 ∈ keys) then r0 else <[k0:=v0]> r0) Hnd')
        as [IHe IHr];
      rewrite ?decide_True in IHe, IHr by done;
      rewrite ?decide_False in IHe, IHr by done;
      rewrite IHe, IHr; clear IHe IHr;
      destruct (decide (k ∈ keys)) as [Hin|Hin]; try done;
      destruct (decide (k = k0)) as [->|Hne]; try done;
      rewrite ?Hfresh by done; simpl;
      rewrite ?lookup_insert_eq, ?lookup_insert_ne by done; done.
Qed.

Lemma extract_args_lookup kwargs keys k :
  (extract_args kwargs keys).1 !! k =
    (if decide (k ∈ keys) then kwargs !! k else None)
  ∧ (extract_args kwargs keys).2 !! k =
    (if decide (k ∈ keys) then None else kwargs !! k).
Proof.
  unfold extract_args.
  destruct (extract_loop_lookup keys (map_to_list kwargs) ∅ ∅ k) as [He Hr].
  { apply NoDup_fst_map_to_list. }
  rewrite He, Hr, list_to_map_to_list, !lookup_empty.
  by destruct (decide _), (kwargs !! k).
Qed.

(** C2: [extract_args kwargs keys_to_extract] returns two dictionaries with
    disjoint key sets, whose union is [kwargs], and a key of [kwargs] is in
    [extracted] exactly when it is in [keys_to_extract] (in [remaining]
    otherwise), with the value it has in [kwargs]. *)
Theorem extract_args_partition kwargs keys :
  let extracted := (extract_args kwargs keys).1 in
  let remaining := (extract_args kwargs keys).2 in
  dom extracted ## dom remaining
  ∧ extracted ∪ remaining = kwargs
  ∧ (∀ k, extracted !! k = if decide (k ∈ keys) then kwargs !! k else None)
  ∧ (∀ k, remaining !! k = if decide (k ∈ keys) then None else kwargs !! k)
  ∧ dom extracted = dom kwargs ∩ keys
  ∧ dom remaining = dom kwargs ∖ keys.
Proof.
  intros extracted remaining.
  assert (∀ k, extracted !! k = if decide (k ∈ keys) then kwargs !! k else None)
    as He by (intros k; apply extract_args_lookup).
  assert (∀ k, remaining !! k = if decide (k ∈ keys) then None else kwargs !! k)
    as Hr by (intros k; apply extract_args_lookup).
  assert (dom extracted = dom kwargs ∩ keys) as Hde.
  { apply set_eq. intros k. rewrite elem_of_intersection, !elem_of_dom, He.
    destruct (decide (k ∈ keys)); [tauto|].
    split; [by intros [? [=]]|tauto]. }
  assert (dom remaining = dom kwargs ∖ keys) as Hdr.
  { apply set_eq. intros k. rewrite elem_of_difference, !elem_of_dom, Hr.
    destruct (decide (k ∈ keys)); [|tauto].
    split; [by intros [? [=]]|tauto]. }
  split_and!; try done.
  - rewrite Hde, Hdr. apply elem_of_disjoint. intros k.
    rewrite elem_of_intersection, elem_of_difference. tauto.
  - apply map_eq. intros k. rewrite lookup_union, He, Hr.
    destruct (decide (k ∈ keys)), (kwargs !! k); done.
Qed.

End extract_args_facts.

(** The example of the documentation: [{a:1, b:2, c:3}] split on [{a, c}]. *)
Example extract_args_abc :
  ExtractArgs.extract_args
    (<["a" := 1]> (<["b" := 2]> (<["c" := 3]> (∅ : gmap string Z))))
    {["a"; "c"]}
  = (<["a" := 1]> (<["c" := 3]> ∅), <["b" := 2]> ∅).
Proof. vm_compute. reflexivity. Qed.

(** ** [one_hot] *)

Section one_hot_facts.
Import OneHot.
Implicit Types (hot_idx length : Z) (dtype : option string).

(** A vector of [n] zeros with a 1 written at position [i]. *)
Lemma lookup_hot (n i j : nat) :
  (j < n)%nat →
  <[i := 1]> (replicate n 0) !! j = Some (if decide (j = i) then 1 else 0).
Proof.
  intros Hj. destruct (decide (j = i)) as [->|Hne].
  - rewrite list_lookup_insert_eq; [done|]. by rewrite length_replicate.
  - rewrite list_lookup_insert_ne by done. by apply lookup_replicate_2.
Qed.

(** Below the guard, the function writes at the index counted from the
    start when it is not negative and from the end when it is. *)
Lemma one_hot_below_length hot_idx length dtype :
  - length ≤ hot_idx < length →
  one_hot hot_idx length dtype =
    Ok (Vector dtype
          (<[Z.to_nat (if decide (hot_idx < 0) then hot_idx + length else hot_idx)
             := 1]> (replicate (Z.to_nat length) 0))).
Proof.
  intros Hrange. unfold one_hot, numpy_zeros, setitem.
  rewrite decide_False by lia. rewrite (decide_False (P := length < 0)) by lia.
  cbn [bind vec_data vec_dtype]. rewrite length_replicate, Z2Nat.id by lia.
  by rewrite decide_True by lia.
Qed.

(** C6: for [0 <= hot_idx < length], [one_hot] returns a vector of exactly
    [length] entries, 1 at [hot_idx] and 0 elsewhere; for
    [hot_idx >= length] (so for [one_hot(5, 5)]) it raises the out-of-range
    exception and returns no vector. *)
Theorem one_hot_spec hot_idx length dtype :
  (0 ≤ hot_idx < length →
   ∃ r, one_hot hot_idx length dtype = Ok r
     ∧ Z.of_nat (List.length (vec_data r)) = length
     ∧ ∀ i, 0 ≤ i < length →
         vec_data r !! Z.to_nat i = Some (if decide (i = hot_idx) then 1 else 0))
  ∧ (hot_idx >= length →
     one_hot hot_idx length dtype =
       Raise (Exception (out_of_range_msg hot_idx length))).
Proof.
  split.
  - intros Hrange. eexists. split; [apply one_hot_below_length; lia|].
    cbn [vec_data]. rewrite decide_False by lia.
    split; [rewrite length_insert, length_replicate; lia|].
    intros i Hi. rewrite lookup_hot by lia.
    destruct (decide (i = hot_idx)) as [->|Hne].
    + by rewrite decide_True.
    + rewrite decide_False; [done|]. intros Heq%Z2Nat.inj; lia.
  - intros Hge. unfold one_hot. by rewrite decide_True.
Qed.

Lemma one_hot_spec_witness :
  (∃ r, one_hot 2 5 None = Ok r
     ∧ Z.of_nat (List.length (vec_data r)) = 5
     ∧ ∀ i, 0 ≤ i < 5 →
         vec_data r !! Z.to_nat i = Some (if decide (i = 2) then 1 else 0))
  ∧ one_hot 5 5 None = Raise (Exception (out_of_range_msg 5 5)).
Proof.
  split.
  - apply (one_hot_spec 2 5 None). lia.
  - apply (one_hot_spec 5 5 None). lia.
Defined.

(** C10: the guard only rejects [hot_idx >= length]; for
    [-length <= hot_idx < 0] the function does not raise and returns a
    vector of [length] entries with the 1 at index [length + hot_idx]. *)
Theorem one_hot_negative_index hot_idx length dtype :
  - length ≤ hot_idx < 0 →
  ∃ r, one_hot hot_idx length dtype = Ok r
    ∧ Z.of_nat (List.length (vec_data r)) = length
    ∧ ∀ i, 0 ≤ i < length →
        vec_data r !! Z.to_nat i =
          Some (if decide (i = length + hot_idx) then 1 else 0).
Proof.
  intros Hrange. eexists. split; [apply one_hot_below_length; lia|].
  cbn [vec_data]. rewrite decide_True by lia.
  split; [rewrite length_insert, length_replicate; lia|].
  intros i Hi. rewrite lookup_hot by lia.
  destruct (decide (i = length + hot_idx)) as [->|Hne].
  - rewrite decide_True; [done|]. f_equal. lia.
  - rewrite decide_False; [done|]. intros Heq%Z2Nat.inj; lia.
Qed.

Lemma one_hot_negative_index_witness :
  ∃ r, one_hot (-1) 5 None = Ok r
    ∧ Z.of_nat (List.length (vec_data r)) = 5
    ∧ ∀ i, 0 ≤ i < 5 →
        vec_data r !! Z.to_nat i = Some (if decide (i = 5 + -1) then 1 else 0).
Proof. apply (one_hot_negative_index (-1) 5 None). lia. Defined.

(** The remaining inputs: a negative length is refused by [numpy.zeros], an
    index below [-length] by the assignment. *)
Lemma one_hot_negative_length hot_idx length dtype :
  hot_idx < length < 0 →
  one_hot hot_idx length dtype =
    Raise (ValueError "negative dimensions are not allowed").
Proof.
  intros Hrange. unfold one_hot, numpy_zeros.
  rewrite decide_False by lia. by rewrite decide_True by lia.
Qed.

Lemma one_hot_below_range hot_idx length dtype :
  0 ≤ length → hot_idx < - length →
  one_hot hot_idx length dtype =
    Raise (IndexError "index is out of bounds for axis 0").
Proof.
  intros Hlen Hlow. unfold one_hot, numpy_zeros, setitem.
  rewrite decide_False by lia. rewrite (decide_False (P := length < 0)) by lia.
  cbn [bind vec_data]. rewrite length_replicate, Z2Nat.id by lia.
  by rewrite decide_False by lia.
Qed.

End one_hot_facts.

Example one_hot_2_5 :
  OneHot.one_hot 2 5 None = Ok (OneHot.Vector None [0; 0; 1; 0; 0]).
Proof. reflexivity. Qed.

Example one_hot_5_5 :
  OneHot.one_hot 5 5 None =
    Raise (Exception
      "Can't create one hot. Index '5' is out of range (length '5')").
Proof. vm_compute. reflexivity. Qed.

Example one_hot_minus1_5 :
  OneHot.one_hot (-1) 5 None = Ok (OneHot.Vector None [0; 0; 0; 0; 1]).
Proof. reflexivity. Qed.

(** ** [subsample_array] *)

(** Occurrences of the items that satisfy [P] do not grow along [⊆+]. *)
Lemma submseteq_filter_length {A} (P : A → Prop) `{!∀ x, Decision (P x)}
    (l k : list A) :
  l ⊆+ k → (length (filter P l) ≤ length (filter P k))%nat.
Proof.
  intros Hsub. apply submseteq_Permutation in Hsub as [k' Hk'].
  rewrite Hk', filter_app, length_app. lia.
Qed.

Section subsample_facts.
Import Subsample.
Context {A G : Type} `{!EqDecision A}.
Context (randbelow : G → nat → nat * G).

(** The contract of the generator: a draw below [n] is below [n]. *)
Hypothesis randbelow_lt : ∀ g n, (0 < n)%nat → ((randbelow g n).1 < n)%nat.

Implicit Types (x : list A) (g : G) (w : world (A := A) (G := G)).

Lemma swap_Permutation x i j :
  (i < length x)%nat → (j < length x)%nat →
  ∃ x', swap x i j = Ok x' ∧ x' ≡ₚ x.
Proof.
  intros [xi Hi]%lookup_lt_is_Some_2 [xj Hj]%lookup_lt_is_Some_2.
  unfold swap. rewrite Hi, Hj. eexists. split; [done|].
  by apply Permutation_insert_swap.
Qed.

Lemma shuffle_from_Permutation i g x :
  (i < length x)%nat ∨ i = 0%nat →
  ∃ g' x', shuffle_from randbelow i g x = Ok (g', x') ∧ x' ≡ₚ x.
Proof.
  revert g x. induction i as [|i IH]; intros g x Hi.
  - by exists g, x.
  - destruct Hi as [Hi|?]; [|done]. cbn [shuffle_from].
    pose proof (randbelow_lt g (S i + 1) ltac:(lia)) as Hj.
    destruct (randbelow g (S i + 1)) as [j g1]. cbn [fst] in Hj.
    destruct (swap_Permutation x (S i) j) as (x1 & -> & Hx1); [lia..|].
    cbn [bind].
    destruct (IH g1 x1) as (g' & x' & -> & Hx').
    { left. rewrite (Permutation_length Hx1). lia. }
    exists g', x'. split; [done|]. by rewrite Hx'.
Qed.

(** [shuffle] returns, and what it returns is a rearrangement. *)
Lemma shuffle_Permutation g x :
  ∃ g' x', shuffle randbelow g x = Ok (g', x') ∧ x' ≡ₚ x.
Proof.
  apply shuffle_from_Permutation. destruct x; cbn [length]; lia.
Qed.

Lemma slice_to_length x (stop : Z) :
  Z.of_nat (length (slice_to x stop)) =
    if decide (stop < 0) then Z.max 0 (stop + Z.of_nat (length x))
    else Z.min stop (Z.of_nat (length x)).
Proof.
  unfold slice_to. rewrite length_take. destruct (decide (stop < 0)); lia.
Qed.

Lemma slice_to_submseteq x (stop : Z) : slice_to x stop ⊆+ x.
Proof. apply submseteq_take. Qed.

(** The shape of a run: the list that ends up at the (possibly copied)
    array is a rearrangement [x'] of the caller's list, and the function
    returns a prefix of it. *)
Lemma subsample_array_run w arr x max_values can_modify rand :
  lists w !! arr = Some x →
  ∃ g' x',
    x' ≡ₚ x
    ∧ subsample_array randbelow w arr max_values can_modify rand =
        Ok (World
              (if can_modify then <[arr := x']> (lists w)
               else <[fresh (dom (lists w)) := x']>
                      (<[fresh (dom (lists w)) := x]> (lists w)))
              (match rand with Some _ => module_rng w | None => g' end),
            (match rand with Some _ => Some g' | None => None end),
            slice_to x' max_values).
Proof.
  intros Harr. unfold subsample_array, load_list. rewrite Harr. cbn [bind].
  destruct rand as [g|].
  - destruct (shuffle_Permutation g x) as (g' & x' & Hrun & Hperm).
    exists g', x'. split; [done|]. rewrite Hrun.
    by destruct can_modify.
  - destruct (shuffle_Permutation (module_rng w) x) as (g' & x' & Hrun & Hperm).
    exists g', x'. split; [done|]. rewrite Hrun.
    by destruct can_modify.
Qed.

(** C7 (as amended): the function returns a list whose length is
    [min(max_values, len(arr))] when [max_values >= 0], and
    [max(0, len(arr) + max_values)] when [max_values] is negative; every
    returned element is a member of the original list and occurs in the
    result no more often than in the original list. *)
Theorem subsample_array_sample w arr x max_values can_modify rand :
  lists w !! arr = Some x →
  ∃ w' rand' res,
    subsample_array randbelow w arr max_values can_modify rand =
      Ok (w', rand', res)
    ∧ (0 ≤ max_values →
       Z.of_nat (length res) = Z.min max_values (Z.of_nat (length x)))
    ∧ (max_values < 0 →
       Z.of_nat (length res) = Z.max 0 (Z.of_nat (length x) + max_values))
    ∧ (∀ a, a ∈ res → a ∈ x)
    ∧ (∀ a, (length (filter (a =.) res) ≤ length (filter (a =.) x))%nat)
    ∧ res ⊆+ x.
Proof.
  intros Harr.
  destruct (subsample_array_run w arr x max_values can_modify rand Harr)
    as (g' & x' & Hperm & ->).
  do 3 eexists. split; [done|].
  assert (slice_to x' max_values ⊆+ x) as Hsub.
  { rewrite <- Hperm. apply slice_to_submseteq. }
  pose proof (slice_to_length x' max_values) as Hlen.
  rewrite (Permutation_length Hperm) in Hlen.
  split_and!.
  - intros ?. rewrite Hlen. by rewrite decide_False by lia.
  - intros ?. rewrite Hlen. rewrite decide_True by lia. lia.
  - intros a Ha. by eapply elem_of_submseteq.
  - intros a. by apply submseteq_filter_length.
  - done.
Qed.

(** C8: with [can_modify_incoming_array=False] the caller's list is the same
    after the call, and so is every other list that existed before it. *)
Theorem subsample_array_keeps_incoming w arr x max_values rand :
  lists w !! arr = Some x →
  ∃ w' rand' res,
    subsample_array randbelow w arr max_values false rand =
      Ok (w', rand', res)
    ∧ lists w' !! arr = Some x
    ∧ ∀ l, l ∈ dom (lists w) → lists w' !! l = lists w !! l.
Proof.
  intros Harr.
  destruct (subsample_array_run w arr x max_values false rand Harr)
    as (g' & x' & Hperm & ->).
  do 3 eexists. split; [done|]. cbn [lists].
  assert (∀ l, l ∈ dom (lists w) →
    <[fresh (dom (lists w)) := x']>
      (<[fresh (dom (lists w)) := x]> (lists w)) !! l = lists w !! l) as Hold.
  { intros l Hl. rewrite !lookup_insert_ne; [done|..];
      intros <-; by apply (is_fresh (dom (lists w))). }
  split; [|done]. rewrite Hold; [done|]. by apply elem_of_dom_2 in Harr.
Qed.

(** X21: With [can_modify_incoming_array=True] the caller's list itself is
    shuffled, and the result is a prefix of it. *)
Lemma subsample_array_shuffles_incoming w arr x max_values rand :
  lists w !! arr = Some x →
  ∃ w' rand' x',
    subsample_array randbelow w arr max_values true rand =
      Ok (w', rand', slice_to x' max_values)
    ∧ lists w' !! arr = Some x' ∧ x' ≡ₚ x.
Proof.
  intros Harr.
  destruct (subsample_array_run w arr x max_values true rand Harr)
    as (g' & x' & Hperm & ->).
  do 3 eexists. split; [done|]. cbn [lists].
  by rewrite lookup_insert_eq.
Qed.

End subsample_facts.

(** *** Running the function with a concrete generator *)

Lemma lcg_randbelow_lt (g : Z) (n : nat) :
  (0 < n)%nat → ((Subsample.lcg_randbelow g n).1 < n)%nat.
Proof.
  intros Hn. unfold Subsample.lcg_randbelow. cbn [fst].
  pose proof (Z.mod_pos_bound (g / 65536) (Z.of_nat n) ltac:(lia)). lia.
Qed.


(** The example of the documentation: ten items, [max_values=3]. *)
Example subsample_array_ten_3 :
  Subsample.subsample_array Subsample.lcg_randbelow Subsample.one_list 1%positive 3
    true None
  = Ok (Subsample.World
          {[ 1%positive := [19; 13; 18; 11; 14; 16; 15; 12; 10; 17] ]}
          393896980,
        None, [19; 13; 18]).
Proof. vm_compute. reflexivity. Qed.

Lemma subsample_array_sample_witness :
  Subsample.lists Subsample.one_list !! 1%positive = Some Subsample.ten_items
  ∧ ∃ w' rand' res,
      Subsample.subsample_array Subsample.lcg_randbelow Subsample.one_list 1%positive 3
        true None = Ok (w', rand', res)
      ∧ (0 ≤ 3 → Z.of_nat (length res) = Z.min 3 (Z.of_nat (length Subsample.ten_items)))
      ∧ (3 < 0 →
         Z.of_nat (length res) = Z.max 0 (Z.of_nat (length Subsample.ten_items) + 3))
      ∧ (∀ a, a ∈ res → a ∈ Subsample.ten_items)
      ∧ (∀ a, (length (filter (a =.) res)
               ≤ length (filter (a =.) Subsample.ten_items))%nat)
      ∧ res ⊆+ Subsample.ten_items.
Proof.
  split; [reflexivity|].
  apply (subsample_array_sample Subsample.lcg_randbelow lcg_randbelow_lt
           Subsample.one_list 1%positive Subsample.ten_items 3 true None).
  reflexivity.
Defined.

(** C7 as stated fails for a negative [max_values]: the slice [arr[:-1]]
    drops the last item, so ten items give nine, and not
    [min(-1, 10)] of them. *)
Lemma subsample_array_negative_max_values :
  ∃ w' rand',
    Subsample.subsample_array Subsample.lcg_randbelow Subsample.one_list 1%positive
      (-1) false (Some 42)
    = Ok (w', rand', [15; 16; 19; 14; 17; 13; 12; 18; 11])
    ∧ Z.of_nat (length [15; 16; 19; 14; 17; 13; 12; 18; 11])
      ≠ Z.min (-1) (Z.of_nat (length Subsample.ten_items)).
Proof. do 2 eexists. split; [vm_compute; reflexivity|]. vm_compute. discriminate. Qed.

Lemma subsample_array_keeps_incoming_witness :
  Subsample.lists Subsample.one_list !! 1%positive = Some Subsample.ten_items
  ∧ ∃ w' rand' res,
      Subsample.subsample_array Subsample.lcg_randbelow Subsample.one_list 1%positive 3
        false (Some 42) = Ok (w', rand', res)
      ∧ Subsample.lists w' !! 1%positive = Some Subsample.ten_items
      ∧ ∀ l, l ∈ dom (Subsample.lists Subsample.one_list) →
          Subsample.lists w' !! l = Subsample.lists Subsample.one_list !! l.
Proof.
  split; [reflexivity|].
  apply (subsample_array_keeps_incoming Subsample.lcg_randbelow
           lcg_randbelow_lt Subsample.one_list 1%positive Subsample.ten_items 3 (Some 42)).
  reflexivity.
Defined.

(** ** [create_dir_for_file] *)

Section create_dir_for_file_facts.
Import Dirs.
Context {fs : Type}.
Context (dirname : string → string).
Context (makedirs : fs → string → fs * result unit).

(** C9: [create_dir_for_file] returns normally exactly when the directory
    creation returns normally or fails with [OSError] of errno [EEXIST];
    every other failure of the directory creation is raised unchanged.  The
    file system is left as the directory creation left it. *)
Theorem create_dir_for_file_swallows_EEXIST (σ : fs) (file_path : string) :
  let made := makedirs σ (dirname file_path) in
  let out := create_dir_for_file dirname makedirs σ file_path in
  out.1 = made.1
  ∧ (made.2 = Raise (OSError EEXIST) → out.2 = Ok ())
  ∧ (made.2 = Ok () → out.2 = Ok ())
  ∧ (∀ e, made.2 = Raise e → e ≠ OSError EEXIST → out.2 = Raise e)
  ∧ (out.2 = Ok () ↔ made.2 = Ok () ∨ made.2 = Raise (OSError EEXIST)).
Proof.
  intros made out. subst made out. unfold create_dir_for_file.
  destruct (makedirs σ (dirname file_path)) as [σ' [[]|e]]; cbn [fst snd].
  { intuition congruence. }
  destruct e as [msg|msg|msg|errno|name]; cbn [fst snd];
    try (intuition congruence).
  destruct (decide (errno ≠ EEXIST)) as [Hne|Heq%dec_stable]; cbn [fst snd].
  - intuition congruence.
  - subst errno. intuition congruence.
Qed.

End create_dir_for_file_facts.

Lemma create_dir_for_file_swallows_EEXIST_witness :
  let made := Posix.makedirs {["models"]} (Posix.dirname "models/policy.json") in
  let out := Dirs.create_dir_for_file Posix.dirname Posix.makedirs
               {["models"]} "models/policy.json" in
  made.2 = Raise (OSError Dirs.EEXIST) ∧ out.2 = Ok () ∧ out.1 = made.1.
Proof.
  intros made out.
  destruct (create_dir_for_file_swallows_EEXIST Posix.dirname Posix.makedirs
              {["models"]} "models/policy.json") as (Hfs & Hexists & _).
  split; [vm_compute; reflexivity|].
  split; [apply Hexists; vm_compute; reflexivity|exact Hfs].
Defined.

(** On the small file system: the parents are made; an existing parent is
    accepted; a path without a directory part makes [makedirs] fail with
    [ENOENT], which is raised again. *)
Example create_dir_for_file_makes_parents :
  let out := Dirs.create_dir_for_file Posix.dirname Posix.makedirs
               {["models"]} "models/dialogue/policy.json" in
  elements out.1 = ["models/dialogue"; "models"] ∧ out.2 = Ok ().
Proof. vm_compute. done. Qed.

Example create_dir_for_file_existing_parent :
  Posix.makedirs {["models"]} (Posix.dirname "models/policy.json")
    = ({["models"]}, Raise (OSError Dirs.EEXIST))
  ∧ Dirs.create_dir_for_file Posix.dirname Posix.makedirs
      {["models"]} "models/policy.json" = ({["models"]}, Ok ()).
Proof. vm_compute. done. Qed.

Example create_dir_for_file_no_parent :
  Dirs.create_dir_for_file Posix.dirname Posix.makedirs
    {["models"]} "policy.json" = ({["models"]}, Raise (OSError Posix.ENOENT)).
Proof. vm_compute. done. Qed.

(** ** [hashlib]: the digest read back as an integer *)

Section hashlib_facts.
Import Hashlib.

Example sha1_abc :
  hexdigest (sha1 [97; 98; 99]) = "a9993e364706816aba3e25717850c26c9cd0d89d".
Proof. vm_compute. reflexivity. Qed.

Example sha1_empty :
  hexdigest (sha1 []) = "da39a3ee5e6b4b0d3255bfef95601890afd80709".
Proof. vm_compute. reflexivity. Qed.

(** The message of 56 bytes of the standard, which takes two blocks. *)
Example sha1_two_blocks :
  hexdigest (sha1 ((λ c, Z.of_N (N_of_ascii c)) <$> String.list_ascii_of_string
    "abcdbcdecdefdefgefghfghighijhijkijkljklmklmnlmnomnopnopq"))
  = "84983e441c3bd26ebaae4aa1f95129e5e54670f1".
Proof. vm_compute. reflexivity. Qed.

Lemma hex_value_digit (n : Z) : 0 ≤ n < 16 → hex_value (hex_digit n) = Some n.
Proof.
  intros Hn. rewrite <- (Z2Nat.id n) by lia.
  assert (Z.to_nat n < 16)%nat as Hlt by lia.
  revert Hlt. generalize (Z.to_nat n). clear. intros k Hlt.
  do 16 (destruct k as [|k]; [reflexivity|]). lia.
Qed.

Lemma int_base16_from_hexdigest (bs : list Z) (acc : Z) :
  Forall is_byte bs →
  int_base16_from acc (hexdigest bs) = Ok (foldl (λ acc b, acc * 256 + b) acc bs).
Proof.
  intros Hbs. revert acc. induction Hbs as [|b bs Hb _ IH]; intros acc.
  - done.
  - unfold is_byte in Hb. cbn [hexdigest int_base16_from foldl].
    rewrite !hex_value_digit.
    + rewrite IH. do 2 f_equal. pose proof (Z_div_mod_eq_full b 16). lia.
    + apply Z.mod_pos_bound. lia.
    + split; [apply Z.div_pos|apply Z.div_lt_upper_bound]; lia.
Qed.

(** [int(digest.hexdigest(), 16)] is the digest read as a big-endian
    number; it never fails on a digest that is not empty. *)
Lemma int_base16_hexdigest (bs : list Z) :
  Forall is_byte bs → bs ≠ [] →
  int_base16 (hexdigest bs) = Ok (be_int bs).
Proof.
  intros Hbs Hne. unfold int_base16, be_int.
  rewrite <- int_base16_from_hexdigest by done.
  destruct bs; done.
Qed.

Lemma be_bytes_is_byte (n : nat) (x : Z) : Forall is_byte (be_bytes n x).
Proof.
  unfold be_bytes. apply Forall_fmap, Forall_forall. intros i _. cbn.
  change 255 with (Z.ones 8). rewrite Z.land_ones by lia.
  apply Z.mod_pos_bound. lia.
Qed.

Lemma sha1_is_bytes (msg : list Z) : Forall is_byte (sha1 msg) ∧ sha1 msg ≠ [].
Proof.
  unfold sha1.
  destruct (foldl process_block initial_regs _) as [[[[h0 h1] h2] h3] h4].
  split.
  - rewrite !Forall_app. split_and!; apply be_bytes_is_byte.
  - done.
Qed.

Lemma int_base16_sha1 (msg : list Z) :
  int_base16 (hexdigest (sha1 msg)) = Ok (be_int (sha1 msg)).
Proof. apply int_base16_hexdigest; apply sha1_is_bytes. Qed.

End hashlib_facts.

(** ** numpy: comparing an array with an equal one *)

Section numpy_facts.
Import Numpy.

Lemma forallb_concat_true (bss : list (list bool)) :
  Forall (λ bs, forallb id bs = true) bss → forallb id (concat bss) = true.
Proof.
  induction 1 as [|bs bss Hbs _ IH]; [done|].
  cbn [concat]. rewrite forallb_app, Hbs, IH. done.
Qed.

(** Same shape, same elements: the comparison is defined and true at every
    position. *)
Lemma equal_aligned_refl (s : list nat) (d : list Z) :
  ∃ bs, equal_aligned s s d d = Some bs ∧ forallb id bs = true.
Proof.
  revert d. induction s as [|n r IH]; intros d.
  - eexists. split; [done|]. cbn. by rewrite bool_decide_true.
  - cbn [equal_aligned]. rewrite decide_True by done.
    assert (∃ bss,
      mapM (λ c, equal_aligned r r c.1 c.2)
           (zip (chunks n (shape_size r) d) (chunks n (shape_size r) d))
        = Some bss
      ∧ Forall (λ bs, forallb id bs = true) bss) as (bss & -> & Hall).
    { generalize (shape_size r). intros k. revert d.
      induction n as [|n IHn]; intros d.
      - by exists [].
      - cbn [chunks zip zip_with mapM fst snd].
        destruct (IH (take k d)) as (bs & -> & Hbs).
        destruct (IHn (drop k d)) as (bss & Hbss & Hall).
        exists (bs :: bss). split; [|by constructor].
        cbn. by rewrite Hbss. }
    exists (concat bss). split; [done|]. by apply forallb_concat_true.
Qed.

Lemma all_equal_same (a b : ndarray) :
  nd_shape a = nd_shape b → nd_data a = nd_data b → all (equal a b) = true.
Proof.
  intros Hshape Hdata. unfold equal. rewrite Hshape, Hdata.
  destruct (equal_aligned_refl
    (align (Nat.max (length (nd_shape b)) (length (nd_shape b))) (nd_shape b))
    (nd_data b)) as (bs & -> & Hbs).
  done.
Qed.

Lemma buffer_same (a b : ndarray) :
  nd_dtype a = nd_dtype b → nd_data a = nd_data b → buffer a = buffer b.
Proof. unfold buffer. by intros -> ->. Qed.

End numpy_facts.

(** ** [HashableNDArray] *)

Section hashable_facts.
Import Hashlib Numpy Hashable.
Implicit Types (σ : gmap loc ndarray) (a b : ndarray) (w o : HashableNDArray).

Lemma fresh_unused σ : σ !! fresh (dom σ) = None.
Proof. apply not_elem_of_dom, is_fresh. Qed.

Lemma array_spec σ a :
  σ ⊆ (array σ a).1
  ∧ (array σ a).1 !! (array σ a).2 = Some a
  ∧ σ !! (array σ a).2 = None.
Proof.
  unfold array. cbn [fst snd]. split_and!.
  - apply insert_subseteq, fresh_unused.
  - apply lookup_insert_eq.
  - apply fresh_unused.
Qed.

(** Construction succeeds on every array of the store.  The wrapper refers
    to the array itself, or to a fresh copy when it is tight; its hash is
    the SHA-1 digest of the bytes the array has at that moment. *)
Lemma init_spec σ A a tight :
  σ !! A = Some a →
  ∃ σ1 w,
    __init__ σ A tight = Ok (σ1, w)
    ∧ σ ⊆ σ1
    ∧ σ1 !! __wrapped w = Some a
    ∧ __tight w = tight
    ∧ __hash__ w = be_int (sha1 (buffer a))
    ∧ (if tight then σ !! __wrapped w = None ∧ σ1 = <[__wrapped w := a]> σ
       else __wrapped w = A ∧ σ1 = σ).
Proof.
  intros HA. unfold __init__, load_array. rewrite HA. cbn [bind].
  rewrite int_base16_sha1. destruct tight; cbn [bind].
  - destruct (array_spec σ a) as (Hsub & Hnew & Hfresh).
    unfold array in *. cbn [fst snd] in *. by do 2 eexists.
  - by do 2 eexists.
Qed.

Lemma eq_spec σ w o a b :
  σ !! __wrapped w = Some a → σ !! __wrapped o = Some b →
  __eq__ σ w o = Ok (all (equal a b)).
Proof. intros Hw Ho. unfold __eq__, load_array. by rewrite Hw, Ho. Qed.

(** C3 (as amended): two arrays with the same dtype, the same shape and the
    same elements give wrappers, tight or not, that compare equal under
    [__eq__] in both directions and that have the same [__hash__]. *)
Theorem wrappers_of_same_arrays σ A B a b tightA tightB :
  σ !! A = Some a → σ !! B = Some b →
  nd_dtype a = nd_dtype b → nd_shape a = nd_shape b → nd_data a = nd_data b →
  ∃ σ1 wA σ2 wB,
    __init__ σ A tightA = Ok (σ1, wA)
    ∧ __init__ σ1 B tightB = Ok (σ2, wB)
    ∧ __eq__ σ2 wA wB = Ok true
    ∧ __eq__ σ2 wB wA = Ok true
    ∧ __hash__ wA = __hash__ wB.
Proof.
  intros HA HB Hdtype Hshape Hdata.
  destruct (init_spec σ A a tightA HA) as (σ1 & wA & HinitA & Hsub1 & HwA & _ & HhA & _).
  pose proof (lookup_weaken _ _ _ _ HB Hsub1) as HB1.
  destruct (init_spec σ1 B b tightB HB1) as (σ2 & wB & HinitB & Hsub2 & HwB & _ & HhB & _).
  pose proof (lookup_weaken _ _ _ _ HwA Hsub2) as HwA2.
  exists σ1, wA, σ2, wB. split_and!; try done.
  - rewrite (eq_spec σ2 wA wB a b) by done. by rewrite all_equal_same.
  - rewrite (eq_spec σ2 wB wA b a) by done. by rewrite all_equal_same.
  - rewrite HhA, HhB. by rewrite (buffer_same a b).
Qed.

Lemma wrappers_of_same_arrays_witness :
  ∃ σ1 wA σ2 wB,
    __init__ same_arrays 1%positive true = Ok (σ1, wA)
    ∧ __init__ σ1 2%positive false = Ok (σ2, wB)
    ∧ __eq__ σ2 wA wB = Ok true
    ∧ __eq__ σ2 wB wA = Ok true
    ∧ __hash__ wA = __hash__ wB.
Proof.
  apply (wrappers_of_same_arrays same_arrays 1%positive 2%positive
           (NDArray int32 [2; 2]%nat [1; -2; 3; 4])
           (NDArray int32 [2; 2]%nat [1; -2; 3; 4]) true false);
    reflexivity.
Defined.

(** C3 as stated fails when the dtypes differ: [int8 [1]] and [int16 [1]]
    have the same shape and the same elements, and their wrappers compare
    equal, but the hashes are those of the byte strings [01] and [01 00]. *)
Lemma wrappers_of_mixed_dtypes :
  ∃ σ1 wA σ2 wB,
    __init__ mixed_dtypes 1%positive false = Ok (σ1, wA)
    ∧ __init__ σ1 2%positive false = Ok (σ2, wB)
    ∧ nd_shape <$> σ2 !! __wrapped wA = nd_shape <$> σ2 !! __wrapped wB
    ∧ nd_data <$> σ2 !! __wrapped wA = nd_data <$> σ2 !! __wrapped wB
    ∧ __eq__ σ2 wA wB = Ok true
    ∧ __hash__ wA = 1093523068179437076151307713719293877757258358775
    ∧ __hash__ wB = 81117187455401937957276750042111964595127455290
    ∧ __hash__ wA ≠ __hash__ wB.
Proof.
  do 4 eexists. split; [vm_compute; reflexivity|].
  split; [vm_compute; reflexivity|].
  vm_compute. split_and!; done.
Qed.

(** A loose wrapper is built on the array at 1, the array is then given
    the contents of the array at 2, and a second wrapper is built on the
    array at 2: the two wrappers compare equal and their hashes differ. *)
Lemma loose_wrapper_inconsistent :
  ∃ σ1 w σ3 w',
    __init__ before_mutation 1%positive false = Ok (σ1, w)
    ∧ __init__ (mutate 1%positive (NDArray int8 [2%nat] [7; 2]) σ1)
               2%positive false = Ok (σ3, w')
    ∧ __eq__ σ3 w w' = Ok true
    ∧ __hash__ w ≠ __hash__ w'.
Proof.
  do 4 eexists. split; [vm_compute; reflexivity|].
  split; [vm_compute; reflexivity|].
  vm_compute. split_and!; done.
Qed.

(** C4: [__hash__] returns the hash computed from the bytes the array had
    when the wrapper was built; it reads nothing but the wrapper, so it is
    not computed again.  For a wrapper that is not tight, once the array
    has been mutated [__eq__] compares the new contents: a wrapper built
    afterwards on the same array compares equal and carries the hash of the
    new bytes, while the first wrapper keeps the hash of the old ones; the
    two hashes do differ on an example. *)
Theorem hash_fixed_at_construction σ A a tight :
  σ !! A = Some a →
  (∃ σ1 w,
     __init__ σ A tight = Ok (σ1, w)
     ∧ int_base16 (hexdigest (sha1 (buffer a))) = Ok (__hash__ w)
     ∧ (tight = false →
        ∀ a',
          (∀ o b, mutate A a' σ1 !! __wrapped o = Some b →
                  __eq__ (mutate A a' σ1) w o = Ok (all (equal a' b)))
          ∧ ∃ σ3 w',
              __init__ (mutate A a' σ1) A false = Ok (σ3, w')
              ∧ __eq__ σ3 w w' = Ok true
              ∧ int_base16 (hexdigest (sha1 (buffer a'))) = Ok (__hash__ w')
              ∧ int_base16 (hexdigest (sha1 (buffer a))) = Ok (__hash__ w)))
  ∧ (∃ σ1 w σ3 w',
       __init__ before_mutation 1%positive false = Ok (σ1, w)
       ∧ __init__ (mutate 1%positive (NDArray int8 [2%nat] [7; 2]) σ1)
                  2%positive false = Ok (σ3, w')
       ∧ __eq__ σ3 w w' = Ok true
       ∧ __hash__ w ≠ __hash__ w').
Proof.
  intros HA. split; [|apply loose_wrapper_inconsistent].
  destruct (init_spec σ A a tight HA)
    as (σ1 & w & Hinit & Hsub & Hw & Htight & Hhash & Hloc).
  exists σ1, w. split; [done|].
  assert (int_base16 (hexdigest (sha1 (buffer a))) = Ok (__hash__ w)) as Hint.
  { by rewrite int_base16_sha1, Hhash. }
  split; [done|]. intros ->. destruct Hloc as [HwA ->]. intros a'.
  assert (mutate A a' σ !! __wrapped w = Some a') as Hw'.
  { unfold mutate. rewrite HwA. apply lookup_insert_eq. }
  split.
  - intros o b Ho. by apply eq_spec.
  - destruct (init_spec (mutate A a' σ) A a' false)
      as (σ3 & w' & Hinit' & _ & Hw3 & _ & Hhash' & [HwA' ->]).
    { apply lookup_insert_eq. }
    exists (mutate A a' σ), w'. split_and!; try done.
    + rewrite (eq_spec _ w w' a' a') by done. by rewrite all_equal_same.
    + by rewrite int_base16_sha1, Hhash'.
Qed.

Lemma hash_fixed_at_construction_witness :
  (∃ σ1 w,
     __init__ before_mutation 1%positive false = Ok (σ1, w)
     ∧ int_base16 (hexdigest (sha1 (buffer (NDArray int8 [2%nat] [1; 2]))))
         = Ok (__hash__ w)
     ∧ (false = false →
        ∀ a',
          (∀ o b, mutate 1%positive a' σ1 !! __wrapped o = Some b →
                  __eq__ (mutate 1%positive a' σ1) w o = Ok (all (equal a' b)))
          ∧ ∃ σ3 w',
              __init__ (mutate 1%positive a' σ1) 1%positive false = Ok (σ3, w')
              ∧ __eq__ σ3 w w' = Ok true
              ∧ int_base16 (hexdigest (sha1 (buffer a'))) = Ok (__hash__ w')
              ∧ int_base16
                  (hexdigest (sha1 (buffer (NDArray int8 [2%nat] [1; 2]))))
                  = Ok (__hash__ w)))
  ∧ (∃ σ1 w σ3 w',
       __init__ before_mutation 1%positive false = Ok (σ1, w)
       ∧ __init__ (mutate 1%positive (NDArray int8 [2%nat] [7; 2]) σ1)
                  2%positive false = Ok (σ3, w')
       ∧ __eq__ σ3 w w' = Ok true
       ∧ __hash__ w ≠ __hash__ w').
Proof.
  apply (hash_fixed_at_construction before_mutation 1%positive
           (NDArray int8 [2%nat] [1; 2]) false).
  reflexivity.
Defined.

(** C5: a tight wrapper holds a copy.  Whatever the original array is
    changed to afterwards, the wrapper still reports the contents of the
    time of construction: [__eq__] compares them, and [unwrap] returns a
    new array with these contents, whose own mutation leaves the wrapper as
    it was. *)
Theorem tight_wrapper_isolated σ A a :
  σ !! A = Some a →
  ∃ σ1 w,
    __init__ σ A true = Ok (σ1, w)
    ∧ __wrapped w ≠ A
    ∧ ∀ a',
        mutate A a' σ1 !! A = Some a'
        ∧ mutate A a' σ1 !! __wrapped w = Some a
        ∧ (∀ o b, mutate A a' σ1 !! __wrapped o = Some b →
                  __eq__ (mutate A a' σ1) w o = Ok (all (equal a b)))
        ∧ ∃ σ3 u,
            unwrap (mutate A a' σ1) w = Ok (σ3, u)
            ∧ u ≠ __wrapped w ∧ u ≠ A
            ∧ σ3 !! u = Some a
            ∧ σ3 !! A = Some a'
            ∧ ∀ a'',
                mutate u a'' σ3 !! __wrapped w = Some a
                ∧ ∀ o b, mutate u a'' σ3 !! __wrapped o = Some b →
                         __eq__ (mutate u a'' σ3) w o = Ok (all (equal a b)).
Proof.
  intros HA.
  destruct (init_spec σ A a true HA)
    as (σ1 & w & Hinit & Hsub & Hw & Htight & Hhash & Hfresh & ->).
  exists (<[__wrapped w := a]> σ), w. split; [done|].
  assert (__wrapped w ≠ A) as Hne by congruence.
  split; [done|]. intros a'.
  set (σ2 := mutate A a' (<[__wrapped w := a]> σ)).
  assert (σ2 !! A = Some a') as HA2 by apply lookup_insert_eq.
  assert (σ2 !! __wrapped w = Some a) as Hw2.
  { unfold σ2, mutate. by rewrite lookup_insert_ne. }
  split_and!; try done.
  { intros o b Ho. by apply eq_spec. }
  destruct (array_spec σ2 a) as (Hsub3 & Hu & Hu2).
  exists (array σ2 a).1, (array σ2 a).2.
  assert ((array σ2 a).2 ≠ __wrapped w) as Hune by congruence.
  split_and!; try done.
  - unfold unwrap, load_array. rewrite Htight, Hw2. cbn [bind]. by destruct (array σ2 a).
  - congruence.
  - by eapply lookup_weaken.
  - intros a''.
    assert (mutate (array σ2 a).2 a'' (array σ2 a).1 !! __wrapped w = Some a)
      as Hw4.
    { unfold mutate. rewrite lookup_insert_ne by done. by eapply lookup_weaken. }
    split; [done|]. intros o b Ho. by apply eq_spec.
Qed.

Lemma tight_wrapper_isolated_witness :
  ∃ σ1 w,
    __init__ before_mutation 1%positive true = Ok (σ1, w)
    ∧ __wrapped w ≠ 1%positive
    ∧ ∀ a',
        mutate 1%positive a' σ1 !! 1%positive = Some a'
        ∧ mutate 1%positive a' σ1 !! __wrapped w
            = Some (NDArray int8 [2%nat] [1; 2])
        ∧ (∀ o b, mutate 1%positive a' σ1 !! __wrapped o = Some b →
                  __eq__ (mutate 1%positive a' σ1) w o
                    = Ok (all (equal (NDArray int8 [2%nat] [1; 2]) b)))
        ∧ ∃ σ3 u,
            unwrap (mutate 1%positive a' σ1) w = Ok (σ3, u)
            ∧ u ≠ __wrapped w ∧ u ≠ 1%positive
            ∧ σ3 !! u = Some (NDArray int8 [2%nat] [1; 2])
            ∧ σ3 !! 1%positive = Some a'
            ∧ ∀ a'',
                mutate u a'' σ3 !! __wrapped w
                  = Some (NDArray int8 [2%nat] [1; 2])
                ∧ ∀ o b, mutate u a'' σ3 !! __wrapped o = Some b →
                         __eq__ (mutate u a'' σ3) w o
                           = Ok (all (equal (NDArray int8 [2%nat] [1; 2]) b)).
Proof.
  apply (tight_wrapper_isolated before_mutation 1%positive
           (NDArray int8 [2%nat] [1; 2])).
  reflexivity.
Defined.

End hashable_facts.

(** ** [cap_length], [str_range_list], [generate_id] *)

Section text_facts.
Import Text.
Implicit Types (s prefix : string) (char_limit : Z).

Lemma length_list_ascii_of_string s :
  length (String.list_ascii_of_string s) = String.length s.
Proof. induction s as [|c s IH]; cbn; [done|]. by rewrite IH. Qed.

Lemma length_string_of_list_ascii (l : list ascii) :
  String.length (String.string_of_list_ascii l) = length l.
Proof. induction l as [|c l IH]; cbn; [done|]. by rewrite IH. Qed.

Lemma string_length_app s1 s2 :
  String.length (s1 +:+ s2) = (String.length s1 + String.length s2)%nat.
Proof. induction s1 as [|c s1 IH]; simpl; [done|]. by rewrite IH. Qed.

Lemma string_app_empty_r s : s +:+ "" = s.
Proof.
  induction s as [|c s IH]; [done|].
  change (String c (s +:+ "") = String c s). by rewrite IH.
Qed.

Lemma string_of_list_ascii_app (l1 l2 : list ascii) :
  String.string_of_list_ascii (l1 ++ l2) =
    String.string_of_list_ascii l1 +:+ String.string_of_list_ascii l2.
Proof. induction l1 as [|c l1 IH]; simpl; [done|]. by rewrite IH. Qed.

Lemma str_slice_to_length s (stop : Z) :
  Z.of_nat (String.length (str_slice_to s stop)) =
    if decide (stop < 0) then Z.max 0 (stop + Z.of_nat (String.length s))
    else Z.min stop (Z.of_nat (String.length s)).
Proof.
  unfold str_slice_to.
  rewrite length_string_of_list_ascii, slice_to_length.
  by rewrite length_list_ascii_of_string.
Qed.

(** A slice from the start is a prefix. *)
Lemma str_slice_to_prefix s (stop : Z) :
  ∃ rest, s = str_slice_to s stop +:+ rest.
Proof.
  unfold str_slice_to, Subsample.slice_to.
  set (n := Z.to_nat _).
  exists (String.string_of_list_ascii (drop n (String.list_ascii_of_string s))).
  rewrite <- string_of_list_ascii_app, take_drop.
  by rewrite String.string_of_list_ascii_of_string.
Qed.

Lemma cap_length_length s char_limit (append_ellipsis : bool) :
  (if append_ellipsis then 3 ≤ char_limit else 0 ≤ char_limit) →
  Z.of_nat (String.length (cap_length s char_limit append_ellipsis)) =
    Z.min (Z.of_nat (String.length s)) char_limit.
Proof.
  intros Hlimit. unfold cap_length.
  destruct (decide (_ > _)) as [Hlong|Hshort]; [|lia].
  destruct append_ellipsis.
  - rewrite string_length_app, Nat2Z.inj_add, str_slice_to_length.
    rewrite decide_False by lia. cbn. lia.
  - rewrite str_slice_to_length. rewrite decide_False by lia. lia.
Qed.

(** X1: With a limit that leaves room for the ellipsis (or without ellipsis and
    a limit that is not negative), the result has [min(len(s), char_limit)]
    characters: it never exceeds the limit. *)
Theorem cap_length_bounded s char_limit (append_ellipsis : bool) :
  (if append_ellipsis then 3 ≤ char_limit else 0 ≤ char_limit) →
  Z.of_nat (String.length (cap_length s char_limit append_ellipsis)) =
    Z.min (Z.of_nat (String.length s)) char_limit.
Proof. apply cap_length_length. Qed.

Lemma cap_length_bounded_witness :
  Z.of_nat (String.length (cap_length "abcdefgh" 5 true)) =
    Z.min (Z.of_nat (String.length "abcdefgh")) 5.
Proof. apply (cap_length_bounded "abcdefgh" 5 true). cbn. lia. Defined.

(** X2: A string that is too long for a limit of at least 3 becomes its first
    [char_limit - 3] characters followed by three dots. *)
Theorem cap_length_ellipsis s char_limit :
  3 ≤ char_limit → Z.of_nat (String.length s) > char_limit →
  ∃ kept dropped,
    s = kept +:+ dropped
    ∧ Z.of_nat (String.length kept) = char_limit - 3
    ∧ cap_length s char_limit true = kept +:+ "...".
Proof.
  intros Hlimit Hlong. unfold cap_length. rewrite decide_True by done.
  destruct (str_slice_to_prefix s (char_limit - 3)) as [rest Hrest].
  exists (str_slice_to s (char_limit - 3)), rest. split_and!; [done| |done].
  rewrite str_slice_to_length. rewrite decide_False by lia. lia.
Qed.

Lemma cap_length_ellipsis_witness :
  ∃ kept dropped,
    "abcdefgh" = kept +:+ dropped
    ∧ Z.of_nat (String.length kept) = 5 - 3
    ∧ cap_length "abcdefgh" 5 true = kept +:+ "...".
Proof. apply (cap_length_ellipsis "abcdefgh" 5); cbn; lia. Defined.

(** X3: With the ellipsis and a limit below 3, a string that is too long comes
    back longer than the limit: the slice [s[:char_limit - 3]] counts from
    the end, and the three dots are added to it. *)
Theorem cap_length_small_limit s char_limit :
  char_limit < 3 → Z.of_nat (String.length s) > char_limit →
  Z.of_nat (String.length (cap_length s char_limit true)) =
    Z.max 0 (Z.of_nat (String.length s) + char_limit - 3) + 3
  ∧ Z.of_nat (String.length (cap_length s char_limit true)) > char_limit.
Proof.
  intros Hlimit Hlong. unfold cap_length. rewrite decide_True by done.
  rewrite string_length_app, Nat2Z.inj_add, str_slice_to_length.
  rewrite decide_True by lia. cbn. lia.
Qed.

Lemma cap_length_small_limit_witness :
  Z.of_nat (String.length (cap_length "abcd" 2 true)) =
    Z.max 0 (Z.of_nat (String.length "abcd") + 2 - 3) + 3
  ∧ Z.of_nat (String.length (cap_length "abcd" 2 true)) > 2.
Proof. apply (cap_length_small_limit "abcd" 2); cbn; lia. Defined.

(** X4: Capping twice is capping once. *)
Theorem cap_length_idempotent s char_limit (append_ellipsis : bool) :
  (if append_ellipsis then 3 ≤ char_limit else 0 ≤ char_limit) →
  cap_length (cap_length s char_limit append_ellipsis) char_limit
             append_ellipsis
  = cap_length s char_limit append_ellipsis.
Proof.
  intros Hlimit.
  pose proof (cap_length_length s char_limit append_ellipsis Hlimit) as Hlen.
  unfold cap_length at 1. by rewrite decide_False by lia.
Qed.

Lemma cap_length_idempotent_witness :
  cap_length (cap_length "abcdefgh" 5 true) 5 true
  = cap_length "abcdefgh" 5 true.
Proof. apply (cap_length_idempotent "abcdefgh" 5 true). cbn. lia. Defined.

(** X5: [str_range_list(start, end)] has [max(0, end - start)] items, all
    different, and contains the decimal form of exactly the integers from
    [start] to [end - 1]. *)
Theorem str_range_list_spec (start stop : Z) :
  length (str_range_list start stop) = Z.to_nat (stop - start)
  ∧ NoDup (str_range_list start stop)
  ∧ (∀ i : nat, Z.of_nat i < stop - start →
       str_range_list start stop !! i = Some (pretty (start + Z.of_nat i)))
  ∧ (∀ z : Z, pretty z ∈ str_range_list start stop ↔ start ≤ z < stop).
Proof.
  unfold str_range_list, range. split_and!.
  - by rewrite length_fmap, length_seqZ.
  - apply (NoDup_fmap_2 _), NoDup_seqZ.
  - intros i Hi. by rewrite list_lookup_fmap, lookup_seqZ_lt.
  - intros z. rewrite (list_elem_of_fmap_inj pretty _), elem_of_seqZ. lia.
Qed.

(** X6: The identifier is the prefix followed by the first [max_chars] digits of
    the UUID; without [max_chars], and also for [max_chars=0], by all 32 of
    them. *)
Theorem generate_id_length (uuid4_hex prefix : string) (max_chars : option Z) :
  String.length uuid4_hex = 32%nat →
  ∃ gid rest,
    generate_id uuid4_hex prefix max_chars = prefix +:+ gid
    ∧ uuid4_hex = gid +:+ rest
    ∧ Z.of_nat (String.length gid) =
        match max_chars with
        | None => 32
        | Some n =>
            if decide (n = 0) then 32
            else if decide (n < 0) then Z.max 0 (32 + n)
            else Z.min n 32
        end.
Proof.
  intros Hlen. unfold generate_id. destruct max_chars as [n|].
  - destruct (decide (n ≠ 0)) as [Hn|Hn%dec_stable].
    + destruct (str_slice_to_prefix uuid4_hex n) as [rest Hrest].
      exists (str_slice_to uuid4_hex n), rest. split_and!; [done..|].
      rewrite str_slice_to_length, Hlen.
      rewrite (decide_False (P := n = 0)) by done.
      destruct (decide (n < 0)); lia.
    + subst n. exists uuid4_hex, "". split_and!; [done| |].
      * by rewrite string_app_empty_r.
      * rewrite Hlen. by rewrite decide_True by done.
  - exists uuid4_hex, "". split_and!; [done| |by rewrite Hlen].
    by rewrite string_app_empty_r.
Qed.

Lemma generate_id_length_witness :
  ∃ gid rest,
    generate_id "0123456789abcdef0123456789abcdef" "id-" (Some 0)
      = "id-" +:+ gid
    ∧ "0123456789abcdef0123456789abcdef" = gid +:+ rest
    ∧ Z.of_nat (String.length gid) =
        if decide (0 = 0) then 32
        else if decide (0 < 0) then Z.max 0 (32 + 0)
        else Z.min 0 32.
Proof.
  apply (generate_id_length "0123456789abcdef0123456789abcdef" "id-" (Some 0)).
  reflexivity.
Defined.

End text_facts.

Example cap_length_abcdefgh :
  Text.cap_length "abcdefgh" 5 true = "ab..."
  ∧ Text.cap_length "abc" 5 true = "abc"
  ∧ Text.cap_length "abcd" 2 true = "abc...".
Proof. vm_compute. done. Qed.

(** ** [is_int] *)

Section is_int_facts.
Import IsInt.
Context (int_of_str : string → result Z).

Lemma is_int_finite (m e : Z) :
  is_int int_of_str (VFloat (Finite m e)) = true ↔ integral m e.
Proof.
  unfold is_int, int, eq_int, trunc, integral.
  destruct (decide (0 ≤ e)) as [He|He].
  - rewrite bool_decide_true by done. intuition.
  - assert (0 < 2 ^ (- e)) as Hpos by (apply Z.pow_pos_nonneg; lia).
    rewrite bool_decide_eq_true. split.
    + intros Hm. right. exists (m ÷ 2 ^ (- e)). exact Hm.
    + intros [?|[k ->]]; [done|]. by rewrite Z.quot_mul by lia.
Qed.

(** X7: [is_int] holds exactly of the integers, the booleans and the finite
    floats whose value is an integer.  It is false on every string (also on
    one that [int] parses), on [None], on the infinities and on NaN. *)
Theorem is_int_spec (v : value) :
  is_int int_of_str v = true ↔
    match v with
    | VInt _ | VBool _ => True
    | VFloat (Finite m e) => integral m e
    | VFloat _ | VStr _ | VNone => False
    end.
Proof.
  destruct v as [z|b|[m e|neg|]|s|].
  - unfold is_int. cbn. by rewrite bool_decide_true.
  - unfold is_int. cbn. by rewrite bool_decide_true.
  - apply is_int_finite.
  - done.
  - done.
  - unfold is_int. cbn. destruct (int_of_str s); done.
  - done.
Qed.

End is_int_facts.

(** ** [lazyproperty] *)

Section lazyproperty_facts.
Import Lazy.
Context {V : Type}.
Implicit Types (self : gmap string V) (fn : gmap string V → gmap string V * result V).

(** X8: The first access runs the function and stores its value; from then on
    the stored value is returned and the object is left as it is, whatever
    the function would return and whatever other attribute has changed in
    between. *)
Theorem lazyproperty_cached fn_name fn self self1 v :
  self !! attr_name fn_name = None →
  fn self = (self1, Ok v) →
  ∃ self2,
    _lazyprop fn_name fn self = (self2, Ok v)
    ∧ _lazyprop fn_name fn self2 = (self2, Ok v)
    ∧ ∀ fn' k x, k ≠ attr_name fn_name →
        _lazyprop fn_name fn' (<[k := x]> self2) = (<[k := x]> self2, Ok v).
Proof.
  intros Hunset Hfn. exists (<[attr_name fn_name := v]> self1).
  unfold _lazyprop. rewrite Hunset, Hfn. split_and!.
  - done.
  - by rewrite lookup_insert_eq.
  - intros fn' k x Hk. rewrite lookup_insert_ne by done.
    by rewrite lookup_insert_eq.
Qed.

End lazyproperty_facts.

Lemma lazyproperty_cached_witness :
  ∃ self2 : gmap string Z,
    Lazy._lazyprop "size" (λ self, (self, Ok 7)) ∅ = (self2, Ok 7)
    ∧ Lazy._lazyprop "size" (λ self, (self, Ok 7)) self2 = (self2, Ok 7)
    ∧ ∀ fn' k x, k ≠ Lazy.attr_name "size" →
        Lazy._lazyprop "size" fn' (<[k := x]> self2) = (<[k := x]> self2, Ok 7).
Proof.
  apply (lazyproperty_cached "size" (λ self, (self, Ok 7)) ∅ ∅ 7);
    reflexivity.
Defined.

(** ** [class_from_module_path] and [module_path_from_instance] *)

Section class_path_facts.
Import Classes.
Context {C : Type}.
Implicit Types (env : environment (C := C)) (inst : instance).

Lemma list_ascii_of_string_app (s1 s2 : string) :
  String.list_ascii_of_string (s1 +:+ s2) =
    String.list_ascii_of_string s1 ++ String.list_ascii_of_string s2.
Proof. induction s1 as [|c s1 IH]; simpl; [done|]. by rewrite IH. Qed.

(** Up to the last separator: with no separator after it, the cut is
    right behind the separator. *)
Lemma upto_last_app (c : ascii) (m n : list ascii) :
  c ∉ n → Posix.upto_last c (m ++ c :: n) = m ++ [c].
Proof.
  intros Hn. unfold Posix.upto_last. rewrite foldr_app.
  assert (foldr (λ x acc, if decide (x ≠ c ∧ acc = []) then [] else x :: acc)
                [] n = []) as Htail.
  { induction n as [|x n IH]; [done|]. cbn [foldr].
    rewrite IH by set_solver. rewrite decide_True; [done|]. set_solver. }
  cbn [foldr]. rewrite Htail. rewrite decide_False by tauto.
  induction m as [|x m IH]; [done|]. cbn [foldr app]. rewrite IH.
  rewrite decide_False; [done|]. intros [_ Hnil]. by destruct m.
Qed.

Lemma rpartition_join (sep : ascii) (s1 s2 : string) :
  sep ∉ String.list_ascii_of_string s2 →
  rpartition sep (s1 +:+ String sep s2) = (s1, String sep "", s2).
Proof.
  intros Hsep. unfold rpartition.
  rewrite list_ascii_of_string_app. cbn [String.list_ascii_of_string].
  rewrite upto_last_app by done.
  destruct (String.list_ascii_of_string s1 ++ [sep]) as [|x l] eqn:Hhead.
  { by destruct (String.list_ascii_of_string s1). }
  rewrite <- Hhead. rewrite length_app. cbn [length].
  replace (length (String.list_ascii_of_string s1) + 1 - 1)%nat
    with (length (String.list_ascii_of_string s1)) by lia.
  rewrite take_app_length.
  replace (String.list_ascii_of_string s1 ++ sep :: String.list_ascii_of_string s2)
    with ((String.list_ascii_of_string s1 ++ [sep]) ++ String.list_ascii_of_string s2)
    by (by rewrite <- app_assoc).
  replace (length (String.list_ascii_of_string s1) + 1)%nat
    with (length (String.list_ascii_of_string s1 ++ [sep]))
    by (rewrite length_app; done).
  rewrite drop_app_length.
  by rewrite !String.string_of_list_ascii_of_string.
Qed.

(** X9: Round trip: the path that [module_path_from_instance] gives for an
    instance leads [class_from_module_path] back to the class of the
    instance, when the class is an attribute of its (importable) module
    under its own name and that name has no dot. *)
Theorem class_from_module_path_of_instance env inst (m : gmap string C) (c : C) :
  __module__ inst ≠ "" →
  (∀ rest, __module__ inst ≠ String dot rest) →
  dot ∉ String.list_ascii_of_string (__name__ inst) →
  modules env !! __module__ inst = Some m →
  m !! __name__ inst = Some c →
  class_from_module_path env (module_path_from_instance inst) = Ok c.
Proof.
  intros Hnonempty Hrelative Hname Hmodule Hattr.
  unfold class_from_module_path, module_path_from_instance.
  change ("." +:+ __name__ inst) with (String dot (__name__ inst)).
  rewrite decide_True.
  2:{ rewrite list_ascii_of_string_app. cbn [String.list_ascii_of_string].
      set_solver. }
  rewrite rpartition_join by done.
  unfold import_module. destruct (__module__ inst) as [|x rest] eqn:Hmod; [done|].
  rewrite decide_False.
  2:{ intros ->. by eapply Hrelative. }
  rewrite Hmodule. cbn [bind]. unfold getattr. by rewrite Hattr.
Qed.

End class_path_facts.

Lemma class_from_module_path_of_instance_witness :
  Classes.class_from_module_path
    (Classes.Environment
       {[ "rasa_core.policies" := {[ "KerasPolicy" := 1%nat ]} ]} ∅)
    (Classes.module_path_from_instance
       (Classes.Instance "rasa_core.policies" "KerasPolicy"))
  = Ok 1%nat.
Proof.
  apply (class_from_module_path_of_instance
           (Classes.Environment
              {[ "rasa_core.policies" := {[ "KerasPolicy" := 1%nat ]} ]} ∅)
           (Classes.Instance "rasa_core.policies" "KerasPolicy")
           {[ "KerasPolicy" := 1%nat ]} 1%nat).
  - done.
  - done.
  - apply (bool_decide_unpack _). vm_compute. exact I.
  - reflexivity.
  - reflexivity.
Defined.

(** ** [all_subclasses] *)

Section all_subclasses_facts.
Import Classes.

Lemma pyclass_nested_ind (P : pyclass → Prop) :
  (∀ name subclasses, Forall P subclasses → P (PyClass name subclasses)) →
  ∀ cls, P cls.
Proof.
  intros Hstep. fix IH 1. intros [name subclasses]. apply Hstep.
  induction subclasses as [|s subclasses IHl]; constructor; [apply IH|exact IHl].
Qed.

Lemma all_subclasses_unfold (cls : pyclass) :
  all_subclasses cls =
    __subclasses__ cls ++ flat_map all_subclasses (__subclasses__ cls).
Proof. by destruct cls. Qed.

(** X10: [all_subclasses(cls)] lists exactly the classes that are reached from
    [cls] by one or more steps to a direct subclass. *)
Theorem all_subclasses_transitive (cls g : pyclass) :
  g ∈ all_subclasses cls ↔ tc direct_subclass cls g.
Proof.
  split.
  - revert g. induction cls as [name subclasses IH] using pyclass_nested_ind.
    intros g. rewrite all_subclasses_unfold. cbn [__subclasses__].
    rewrite elem_of_app. intros [Hdirect|Hdeep].
    + by apply tc_once.
    + apply list_elem_of_In, in_flat_map in Hdeep as (s & Hs & Hg).
      apply list_elem_of_In in Hs, Hg.
      apply tc_l with s; [done|].
      rewrite Forall_forall in IH. by apply IH.
  - induction 1 as [c s Hdirect|c s g' Hdirect _ IH];
      rewrite all_subclasses_unfold, elem_of_app.
    + by left.
    + right. apply list_elem_of_In, in_flat_map. exists s.
      split; by apply list_elem_of_In.
Qed.

End all_subclasses_facts.

(** ** [request_input] *)

Section request_input_facts.
Import Prompt.
Implicit Types (vs : list string) (prompt : option string)
  (events : list (result string)) (out : list string).

Lemma request_loop_rejected vs prompt max_suggested events out tail :
  Forall (rejected vs) events →
  request_loop (Some vs) prompt max_suggested (events ++ tail) out =
    request_loop (Some vs) prompt max_suggested tail
      (out ++ rejections vs prompt max_suggested (length events)).
Proof.
  intros Hrej. revert out.
  induction Hrej as [|event events Hevent _ IH]; intros out.
  - unfold rejections. cbn. by rewrite app_nil_r.
  - cbn [app request_loop wrong_input_message].
    assert (out ++ rejections vs prompt max_suggested (length (event :: events))
            = ((out ++ prompt_text prompt)
                 ++ [wrong_input_text vs max_suggested])
              ++ rejections vs prompt max_suggested (length events)) as ->.
    { unfold rejections. cbn [length replicate concat].
      by rewrite <- !app_assoc. }
    rewrite <- IH.
    destruct event as [line|e]; cbn in Hevent.
    + by rewrite decide_True.
    + by destruct e.
Qed.

(** X11: The answer is the first line of the input that is among the valid
    values; each item before it costs one prompt and one message, the rest
    of the input is left unread. *)
Theorem request_input_first_valid vs prompt max_suggested events v rest out :
  Forall (rejected vs) events → v ∈ vs →
  request_input (Some vs) prompt max_suggested
    (Console (events ++ Ok v :: rest) out)
  = (Console rest
       (out ++ rejections vs prompt max_suggested (length events)
            ++ prompt_text prompt),
     Ok v).
Proof.
  intros Hrej Hv. unfold request_input. cbn [pending printed].
  rewrite request_loop_rejected by done. cbn [request_loop].
  rewrite decide_False by (by intros ?). by rewrite <- app_assoc.
Qed.

(** X12: When no item of the input is accepted, the function reads all of it and
    ends with the [EOFError] of [input()]. *)
Theorem request_input_exhausted vs prompt max_suggested events out :
  Forall (rejected vs) events →
  request_input (Some vs) prompt max_suggested (Console events out)
  = (Console []
       (out ++ rejections vs prompt max_suggested (length events)
            ++ prompt_text prompt),
     Raise (OtherError "EOFError")).
Proof.
  intros Hrej. unfold request_input. cbn [pending printed].
  rewrite <- (app_nil_r events) at 1.
  rewrite request_loop_rejected by done. cbn [request_loop].
  by rewrite <- app_assoc.
Qed.

(** X13: Whatever the input, a returned answer is one of the valid values. *)
Theorem request_input_valid vs prompt max_suggested c c' v :
  request_input (Some vs) prompt max_suggested c = (c', Ok v) → v ∈ vs.
Proof.
  unfold request_input. generalize (printed c). generalize (pending c).
  intros events. induction events as [|event events IH]; intros out.
  - cbn. congruence.
  - cbn [request_loop wrong_input_message].
    destruct event as [line|e].
    + destruct (decide (line ∉ vs)) as [Hout|Hin%dec_stable].
      * apply IH.
      * by intros [= _ <-].
    + destruct e; try congruence. apply IH.
Qed.

(** Without valid values the first line is the answer; but a [ValueError]
    of [input()] then ends in a [TypeError], because the message is built
    from the missing list. *)
Lemma request_input_unrestricted prompt max_suggested rest out :
  (∀ line,
     request_input None prompt max_suggested (Console (Ok line :: rest) out)
     = (Console rest (out ++ prompt_text prompt), Ok line))
  ∧ (∀ msg,
       request_input None prompt max_suggested
         (Console (Raise (ValueError msg) :: rest) out)
       = (Console rest (out ++ prompt_text prompt),
          Raise (OtherError "TypeError"))).
Proof. by split. Qed.

End request_input_facts.

Lemma request_input_first_valid_witness :
  Prompt.request_input (Some ["y"; "n"]) (Some "> ") 3
    (Prompt.Console ([Ok "maybe"; Raise (ValueError "closed")]
                      ++ Ok "n" :: [Ok "y"]) [])
  = (Prompt.Console [Ok "y"]
       ([] ++ Prompt.rejections ["y"; "n"] (Some "> ") 3
                (length [Ok "maybe"; Raise (ValueError "closed")])
           ++ Prompt.prompt_text (Some "> ")),
     Ok "n").
Proof.
  apply (request_input_first_valid ["y"; "n"] (Some "> ") 3
           [Ok "maybe"; Raise (ValueError "closed")] "n" [Ok "y"] []).
  - repeat constructor; cbn; try done.
    apply (bool_decide_unpack _). vm_compute. exact I.
  - apply (bool_decide_unpack _). vm_compute. exact I.
Defined.

Lemma request_input_exhausted_witness :
  Prompt.request_input (Some ["y"; "n"]) None 3
    (Prompt.Console [Ok "maybe"; Ok "no"] [])
  = (Prompt.Console []
       ([] ++ Prompt.rejections ["y"; "n"] None 3 (length [Ok "maybe"; Ok "no"])
           ++ Prompt.prompt_text None),
     Raise (OtherError "EOFError")).
Proof.
  apply (request_input_exhausted ["y"; "n"] None 3 [Ok "maybe"; Ok "no"] []).
  repeat constructor; cbn; apply (bool_decide_unpack _); vm_compute; exact I.
Defined.

Lemma request_input_valid_witness : "n" ∈ ["y"; "n"].
Proof.
  apply (request_input_valid ["y"; "n"] None 3
           (Prompt.Console [Ok "maybe"; Ok "n"] [])
           (Prompt.Console []
              [Prompt.wrong_input_text ["y"; "n"] 3]) "n").
  vm_compute. reflexivity.
Defined.

Example request_input_message :
  Prompt.wrong_input_text ["a"; "b"; "c"; "d"] 3
  = "Invalid answer, only a, b, c,... allowed" +:+ Prompt.newline
      +:+ Prompt.newline.
Proof. vm_compute. reflexivity. Qed.

(** ** [is_training_data_empty] *)

Section training_facts.
Import Numpy Training.

(** X15: A matrix that is reported empty holds no element at all. *)
Theorem is_training_data_empty_no_data (X : ndarray) :
  well_formed X → is_training_data_empty X = Ok true → nd_data X = [].
Proof.
  unfold well_formed, is_training_data_empty.
  destruct (nd_shape X) as [|n shape]; [done|].
  intros Hwf [= Hn%bool_decide_eq_true]. subst n.
  cbn in Hwf. by apply nil_length_inv.
Qed.

Lemma is_training_data_empty_no_data_witness :
  nd_data (NDArray int32 [0; 4]%nat []) = [].
Proof.
  apply (is_training_data_empty_no_data (NDArray int32 [0; 4]%nat []));
    reflexivity.
Defined.

End training_facts.

(** ** More on [one_hot] *)

Section one_hot_more.
Import OneHot.
Implicit Types (hot_idx length : Z) (dtype : option string).


Lemma one_hot_ok_range hot_idx length dtype r :
  one_hot hot_idx length dtype = Ok r → - length ≤ hot_idx < length.
Proof.
  intros Hr.
  destruct (decide (hot_idx >= length)) as [Hge|Hlt].
  { unfold one_hot in Hr. by rewrite decide_True in Hr. }
  destruct (decide (length < 0)) as [Hneg|Hpos].
  { by rewrite one_hot_negative_length in Hr by lia. }
  destruct (decide (hot_idx < - length)) as [Hlow|Hin]; [|lia].
  by rewrite one_hot_below_range in Hr by lia.
Qed.

(** X16: [one_hot] returns a vector exactly for [-length <= hot_idx < length]. *)
Theorem one_hot_returns_iff hot_idx length dtype :
  (∃ r, one_hot hot_idx length dtype = Ok r) ↔ - length ≤ hot_idx < length.
Proof.
  split.
  - intros [r Hr]. by eapply one_hot_ok_range.
  - intros Hrange. eexists. by apply one_hot_below_length.
Qed.





End one_hot_more.

(** ** More on [extract_args] *)

Section extract_args_more.
Import ExtractArgs.
Context {V : Type}.
Implicit Types (kwargs : gmap string V) (keys : gset string).

Lemma extract_args_disjoint_union kwargs keys :
  (extract_args kwargs keys).1 ##ₘ (extract_args kwargs keys).2
  ∧ (extract_args kwargs keys).1 ∪ (extract_args kwargs keys).2 = kwargs.
Proof.
  split.
  - apply map_disjoint_spec. intros k x y.
    rewrite (proj1 (extract_args_lookup _ _ k)).
    rewrite (proj2 (extract_args_lookup _ _ k)).
    destruct (decide (k ∈ keys)); congruence.
  - apply map_eq. intros k. rewrite lookup_union.
    rewrite (proj1 (extract_args_lookup _ _ k)).
    rewrite (proj2 (extract_args_lookup _ _ k)).
    destruct (decide (k ∈ keys)), (kwargs !! k); done.
Qed.

(** X19: Splitting in two rounds is splitting once on the union of the keys:
    what the second round finds in the remainder of the first completes the
    extracted part, and the last remainder is the remainder. *)
Theorem extract_args_twice kwargs keys1 keys2 :
  let first := extract_args kwargs keys1 in
  let second := extract_args first.2 keys2 in
  first.1 ∪ second.1 = (extract_args kwargs (keys1 ∪ keys2)).1
  ∧ second.2 = (extract_args kwargs (keys1 ∪ keys2)).2
  ∧ first.1 ##ₘ second.1.
Proof.
  intros first second. subst first second. split_and!.
  - apply map_eq. intros k. rewrite lookup_union.
    rewrite !(proj1 (extract_args_lookup _ _ k)).
    rewrite !(proj2 (extract_args_lookup _ _ k)).
    destruct (decide (k ∈ keys1)), (decide (k ∈ keys2)),
      (decide (k ∈ keys1 ∪ keys2)) as [Hu|Hu];
      rewrite elem_of_union in Hu; try tauto;
      destruct (kwargs !! k); done.
  - apply map_eq. intros k.
    rewrite !(proj2 (extract_args_lookup _ _ k)).
    destruct (decide (k ∈ keys1)), (decide (k ∈ keys2)),
      (decide (k ∈ keys1 ∪ keys2)) as [Hu|Hu];
      rewrite elem_of_union in Hu; try tauto; done.
  - apply map_disjoint_spec. intros k x y.
    rewrite !(proj1 (extract_args_lookup _ _ k)).
    rewrite !(proj2 (extract_args_lookup _ _ k)).
    destruct (decide (k ∈ keys1)), (decide (k ∈ keys2)); congruence.
Qed.

(** X20: No item is lost or made up, and keys to extract that [kwargs] does not
    have change nothing. *)
Theorem extract_args_sizes kwargs keys :
  (size (extract_args kwargs keys).1 + size (extract_args kwargs keys).2
   = size kwargs)%nat
  ∧ extract_args kwargs keys = extract_args kwargs (keys ∩ dom kwargs).
Proof.
  split.
  - destruct (extract_args_disjoint_union kwargs keys) as [Hdisj Hunion].
    rewrite <- Hunion at 3. by rewrite map_size_disj_union.
  - apply injective_projections; apply map_eq; intros k.
    + rewrite !(proj1 (extract_args_lookup _ _ k)).
      destruct (decide (k ∈ keys)) as [Hk|Hk].
      * destruct (kwargs !! k) eqn:Hlook.
        -- rewrite decide_True; [done|].
           apply elem_of_intersection. split; [done|]. by apply elem_of_dom_2 in Hlook.
        -- by destruct (decide _).
      * rewrite decide_False; [done|]. rewrite elem_of_intersection. tauto.
    + rewrite !(proj2 (extract_args_lookup _ _ k)).
      destruct (decide (k ∈ keys)) as [Hk|Hk].
      * destruct (kwargs !! k) eqn:Hlook.
        -- rewrite decide_True; [done|].
           apply elem_of_intersection. split; [done|]. by apply elem_of_dom_2 in Hlook.
        -- by destruct (decide _).
      * rewrite decide_False; [done|]. rewrite elem_of_intersection. tauto.
Qed.

End extract_args_more.

(** ** More on [subsample_array] *)

Section subsample_more.
Import Subsample.
Context {A G : Type}.
Context (randbelow : G → nat → nat * G).
Hypothesis randbelow_lt : ∀ g n, (0 < n)%nat → ((randbelow g n).1 < n)%nat.
Implicit Types (x : list A) (w : world (A := A) (G := G)).

(** X22: When [max_values] is at least the length of the list, the result is the
    whole list in a new order. *)
Theorem subsample_array_whole w arr x max_values can_modify rand :
  lists w !! arr = Some x →
  Z.of_nat (length x) ≤ max_values →
  ∃ w' rand' res,
    subsample_array randbelow w arr max_values can_modify rand =
      Ok (w', rand', res)
    ∧ res ≡ₚ x.
Proof.
  intros Harr Hmax.
  destruct (subsample_array_run randbelow randbelow_lt w arr x max_values
              can_modify rand Harr) as (g' & x' & Hperm & ->).
  do 3 eexists. split; [done|].
  unfold slice_to. rewrite decide_False by lia.
  rewrite take_ge; [done|]. rewrite (Permutation_length Hperm). lia.
Qed.

(** X23: The call touches no list other than [arr], and it advances only the
    generator it uses: the caller's one when it is given (the module's
    generator stays as it is), the module's one otherwise. *)
Theorem subsample_array_frame w arr x max_values can_modify rand :
  lists w !! arr = Some x →
  ∃ w' rand' res,
    subsample_array randbelow w arr max_values can_modify rand =
      Ok (w', rand', res)
    ∧ (∀ l, l ≠ arr → l ∈ dom (lists w) → lists w' !! l = lists w !! l)
    ∧ match rand with
      | Some g =>
          module_rng w' = module_rng w
          ∧ ∃ x', shuffle randbelow g x = Ok (default g rand', x')
      | None =>
          rand' = None
          ∧ ∃ x', shuffle randbelow (module_rng w) x = Ok (module_rng w', x')
      end.
Proof.
  intros Harr. unfold subsample_array, load_list. rewrite Harr. cbn [bind].
  assert (∀ g, ∃ g' x', shuffle randbelow g x = Ok (g', x')) as Hshuffle.
  { intros g.
    destruct (shuffle_Permutation randbelow randbelow_lt g x)
      as (g' & x' & Hrun & _). eauto. }
  assert (∀ x' l, l ≠ arr → l ∈ dom (lists w) →
    (let '(h, arr0) :=
       if negb can_modify then copy_list (lists w) x else (lists w, arr) in
     <[arr0 := x']> h) !! l = lists w !! l) as Hframe.
  { intros x' l Hl Hdom. destruct can_modify; cbn [negb copy_list].
    - by rewrite lookup_insert_ne.
    - rewrite !lookup_insert_ne; [done|..];
        intros <-; by apply (is_fresh (dom (lists w))). }
  destruct rand as [g|].
  - destruct (Hshuffle g) as (g' & x' & Hrun). rewrite Hrun. cbn [bind].
    specialize (Hframe x').
    destruct (if negb can_modify then copy_list (lists w) x else (lists w, arr))
      as [h arr0].
    do 3 eexists. split; [done|]. cbn [lists module_rng default].
    split; [done|]. split; [done|]. by exists x'.
  - destruct (Hshuffle (module_rng w)) as (g' & x' & Hrun). rewrite Hrun.
    cbn [bind]. specialize (Hframe x').
    destruct (if negb can_modify then copy_list (lists w) x else (lists w, arr))
      as [h arr0].
    do 3 eexists. split; [done|]. cbn [lists module_rng].
    split; [done|]. split; [done|]. by exists x'.
Qed.

End subsample_more.

Lemma subsample_array_shuffles_incoming_witness :
  ∃ w' rand' x',
    Subsample.subsample_array Subsample.lcg_randbelow Subsample.one_list
      1%positive 3 true None
    = Ok (w', rand', Subsample.slice_to x' 3)
    ∧ Subsample.lists w' !! 1%positive = Some x'
    ∧ x' ≡ₚ Subsample.ten_items.
Proof.
  apply (subsample_array_shuffles_incoming Subsample.lcg_randbelow
           lcg_randbelow_lt Subsample.one_list 1%positive
           Subsample.ten_items 3 None).
  reflexivity.
Defined.

Lemma subsample_array_whole_witness :
  ∃ w' rand' res,
    Subsample.subsample_array Subsample.lcg_randbelow Subsample.one_list
      1%positive 12 false None
    = Ok (w', rand', res)
    ∧ res ≡ₚ Subsample.ten_items.
Proof.
  apply (subsample_array_whole Subsample.lcg_randbelow lcg_randbelow_lt
           Subsample.one_list 1%positive Subsample.ten_items 12 false None).
  - reflexivity.
  - vm_compute. discriminate.
Defined.

Lemma subsample_array_frame_witness :
  ∃ w' rand' res,
    Subsample.subsample_array Subsample.lcg_randbelow Subsample.one_list
      1%positive 3 true (Some 42)
    = Ok (w', rand', res)
    ∧ (∀ l, l ≠ 1%positive → l ∈ dom (Subsample.lists Subsample.one_list) →
         Subsample.lists w' !! l = Subsample.lists Subsample.one_list !! l)
    ∧ (Subsample.module_rng w' = Subsample.module_rng Subsample.one_list
       ∧ ∃ x', Subsample.shuffle Subsample.lcg_randbelow 42
                 Subsample.ten_items = Ok (default 42 rand', x')).
Proof.
  apply (subsample_array_frame Subsample.lcg_randbelow lcg_randbelow_lt
           Subsample.one_list 1%positive Subsample.ten_items 3 true (Some 42)).
  reflexivity.
Defined.

(** ** More on [HashableNDArray] *)

Section hashable_more.
Import Hashlib Numpy Hashable.
Implicit Types (σ : gmap loc ndarray) (a b : ndarray) (w o : HashableNDArray).

Lemma mapM_pointwise {X Y} (f g : X → option Y) (l : list X) :
  (∀ x, f x = g x) → mapM f l = mapM g l.
Proof.
  intros Hfg. induction l as [|x l IH]; [done|].
  cbn. by rewrite Hfg, IH.
Qed.

Lemma mapM_zip_swap {X Y} (f g : list X → list X → option Y)
    (l1 l2 : list (list X)) :
  (∀ x y, f x y = g y x) →
  mapM (λ c, f c.1 c.2) (zip l1 l2) = mapM (λ c, g c.1 c.2) (zip l2 l1).
Proof.
  intros Hfg. revert l2. induction l1 as [|x l1 IH]; intros [|y l2]; try done.
  cbn. rewrite Hfg. specialize (IH l2). cbn in IH. by rewrite IH.
Qed.

(** The elementwise comparison does not depend on the order of its two
    arguments. *)
Lemma equal_aligned_sym (s1 s2 : list nat) (d1 d2 : list Z) :
  equal_aligned s1 s2 d1 d2 = equal_aligned s2 s1 d2 d1.
Proof.
  revert s2 d1 d2. induction s1 as [|n1 r1 IH]; intros [|n2 r2] d1 d2;
    try done.
  - cbn. do 2 f_equal. apply bool_decide_ext. split; congruence.
  - cbn [equal_aligned].
    destruct (decide (n1 = n2)) as [->|Hne].
    + rewrite decide_True by done. f_equal. by apply mapM_zip_swap.
    + rewrite (decide_False (P := n2 = n1)) by congruence.
      destruct (decide (n1 = 1%nat)) as [->|Hn1].
      * rewrite (decide_False (P := n2 = 1%nat)) by congruence.
        f_equal. by apply mapM_pointwise.
      * destruct (decide (n2 = 1%nat)) as [->|Hn2]; [|done].
        f_equal. by apply mapM_pointwise.
Qed.

Lemma all_equal_sym a b : all (equal a b) = all (equal b a).
Proof.
  unfold equal. rewrite equal_aligned_sym.
  by rewrite (Nat.max_comm (length (nd_shape a))).
Qed.

(** X24: [__eq__] gives the same answer in both directions. *)
Theorem eq_symmetric σ w o : __eq__ σ w o = __eq__ σ o w.
Proof.
  unfold __eq__, load_array.
  destruct (σ !! __wrapped w) as [a|], (σ !! __wrapped o) as [b|];
    cbn [bind]; try done.
  by rewrite all_equal_sym.
Qed.

Lemma chunks_replicate_ones (n : nat) (v : Z) :
  chunks n 1 (replicate n v) = replicate n [v].
Proof.
  induction n as [|n IH]; [done|].
  change ([v] :: chunks n 1 (replicate n v) = [v] :: replicate n [v]).
  by rewrite IH.
Qed.

(** A vector of [n] copies of [v] against the one-element vector [[v]]. *)
Lemma all_equal_broadcast (t1 t2 : dtype) (n : nat) (v : Z) :
  all (equal (NDArray t1 [n] (replicate n v)) (NDArray t2 [1%nat] [v])) = true.
Proof.
  unfold equal. cbn [nd_shape nd_data length Nat.max align Nat.sub replicate app].
  cbn [equal_aligned].
  assert (∀ k, mapM (λ c1 : list Z, equal_aligned [] [] c1 [v]) (replicate k [v])
            = Some (replicate k [true])) as Hrow.
  { induction k as [|k IHk]; [done|]. cbn. cbn in IHk. rewrite IHk.
    cbn. by rewrite bool_decide_true. }
  destruct (decide (n = 1%nat)) as [->|Hn].
  - cbn. by rewrite bool_decide_true by done.
  - rewrite decide_True by done.
    change (shape_size []) with 1%nat.
    rewrite chunks_replicate_ones, Hrow. cbn.
    clear. induction n as [|n IH]; [done|]. cbn. exact IH.
Qed.

Lemma all_equal_mismatch (t1 t2 : dtype) (n m : nat) (d1 d2 : list Z) :
  n ≠ m → n ≠ 1%nat → m ≠ 1%nat →
  all (equal (NDArray t1 [n] d1) (NDArray t2 [m] d2)) = false.
Proof.
  intros Hnm Hn Hm. unfold equal.
  cbn [nd_shape nd_data length Nat.max align Nat.sub replicate app].
  cbn [equal_aligned]. by rewrite !decide_False by done.
Qed.

(** X25: Because of broadcasting [__eq__] is not transitive: the one-element
    vector [[v]] equals every vector made of [v]s, and two such vectors of
    different lengths are not equal. *)
Theorem eq_not_transitive σ w1 w2 w3 (t1 t2 t3 : dtype) (n m : nat) (v : Z) :
  σ !! __wrapped w1 = Some (NDArray t1 [n] (replicate n v)) →
  σ !! __wrapped w2 = Some (NDArray t2 [1%nat] [v]) →
  σ !! __wrapped w3 = Some (NDArray t3 [m] (replicate m v)) →
  n ≠ m → n ≠ 1%nat → m ≠ 1%nat →
  __eq__ σ w1 w2 = Ok true
  ∧ __eq__ σ w2 w3 = Ok true
  ∧ __eq__ σ w1 w3 = Ok false.
Proof.
  intros H1 H2 H3 Hnm Hn Hm. split_and!.
  - rewrite (eq_spec _ _ _ _ _ H1 H2). by rewrite all_equal_broadcast.
  - rewrite (eq_spec _ _ _ _ _ H2 H3).
    by rewrite all_equal_sym, all_equal_broadcast.
  - rewrite (eq_spec _ _ _ _ _ H1 H3). by rewrite all_equal_mismatch.
Qed.

Lemma be_int_bound (bs : list Z) :
  Forall is_byte bs → 0 ≤ be_int bs < 256 ^ Z.of_nat (length bs).
Proof.
  unfold be_int. induction bs as [|b bs IH] using rev_ind; intros Hbs.
  - cbn. lia.
  - apply Forall_app in Hbs as [Hbs Hb]. apply Forall_inv in Hb.
    specialize (IH Hbs). unfold is_byte in Hb.
    rewrite foldl_app, length_app. cbn [foldl length].
    rewrite Nat2Z.inj_add, Z.pow_add_r by lia.
    change (256 ^ Z.of_nat 1) with 256.
    generalize dependent (256 ^ Z.of_nat (length bs)).
    generalize (foldl (λ acc b0 : Z, acc * 256 + b0) 0 bs). lia.
Qed.

Lemma sha1_length (msg : list Z) : length (sha1 msg) = 20%nat.
Proof.
  unfold sha1.
  destruct (foldl process_block initial_regs _) as [[[[h0 h1] h2] h3] h4].
  done.
Qed.

(** X26: The hash of a wrapper is a natural number below [2^160]. *)
Theorem hash_range σ A a tight :
  σ !! A = Some a →
  ∃ σ1 w, __init__ σ A tight = Ok (σ1, w) ∧ 0 ≤ __hash__ w < 2 ^ 160.
Proof.
  intros HA.
  destruct (init_spec σ A a tight HA) as (σ1 & w & Hinit & _ & _ & _ & Hhash & _).
  exists σ1, w. split; [done|]. rewrite Hhash.
  pose proof (be_int_bound (sha1 (buffer a)) (proj1 (sha1_is_bytes _))) as Hb.
  rewrite sha1_length in Hb. exact Hb.
Qed.

(** X14: [unwrap] of a wrapper that is not tight gives back the very array the
    wrapper was built on, and creates nothing. *)
Theorem unwrap_loose σ A a :
  σ !! A = Some a →
  ∃ w,
    __init__ σ A false = Ok (σ, w)
    ∧ ∀ σ', unwrap σ' w = Ok (σ', A).
Proof.
  intros HA.
  destruct (init_spec σ A a false HA)
    as (σ1 & w & Hinit & _ & _ & Htight & _ & HwA & ->).
  exists w. split; [done|]. intros σ'. unfold unwrap. by rewrite Htight, HwA.
Qed.

End hashable_more.

Lemma eq_not_transitive_witness :
  let σ : gmap loc Numpy.ndarray :=
    {[ 1%positive := Numpy.NDArray Numpy.int8 [2%nat] (replicate 2 5);
       2%positive := Numpy.NDArray Numpy.int8 [1%nat] [5];
       3%positive := Numpy.NDArray Numpy.int8 [3%nat] (replicate 3 5) ]} in
  let wrap l := {| Hashable.__tight := false; Hashable.__wrapped := l;
                   Hashable.__hash := 0 |} in
  Hashable.__eq__ σ (wrap 1%positive) (wrap 2%positive) = Ok true
  ∧ Hashable.__eq__ σ (wrap 2%positive) (wrap 3%positive) = Ok true
  ∧ Hashable.__eq__ σ (wrap 1%positive) (wrap 3%positive) = Ok false.
Proof.
  intros σ wrap.
  apply (eq_not_transitive σ (wrap 1%positive) (wrap 2%positive)
           (wrap 3%positive) Numpy.int8 Numpy.int8 Numpy.int8 2 3 5);
    (reflexivity || lia).
Defined.

Lemma hash_range_witness :
  ∃ σ1 w,
    Hashable.__init__ Hashable.same_arrays 1%positive true = Ok (σ1, w)
    ∧ 0 ≤ Hashable.__hash__ w < 2 ^ 160.
Proof.
  apply (hash_range Hashable.same_arrays 1%positive
           (Numpy.NDArray Numpy.int32 [2; 2]%nat [1; -2; 3; 4]) true).
  reflexivity.
Defined.

Lemma unwrap_loose_witness :
  ∃ w,
    Hashable.__init__ Hashable.same_arrays 1%positive false
      = Ok (Hashable.same_arrays, w)
    ∧ ∀ σ', Hashable.unwrap σ' w = Ok (σ', 1%positive).
Proof.
  apply (unwrap_loose Hashable.same_arrays 1%positive
           (Numpy.NDArray Numpy.int32 [2; 2]%nat [1; -2; 3; 4])).
  reflexivity.
Defined.
